(** * vxml: a shallow embedding of [module_xml.py]

    The development follows the layout of the Python module:
    - [PyStr]: the [str] built-ins the module calls;
    - [Re]: the backtracking matcher behind [re.compile(...).findall];
    - [RegexCollector]: the REX shallow-parsing grammar;
    - the object model ([XmlRoot], [XmlNode] objects in a store);
    - [XmlParser], [XmlSerializer] and the query/insert methods of [XmlNode].

    Modelling conventions.
    - A Python [str] is a Rocq [string]; a character is a code point below
      256 (the Latin-1 range), which covers every literal of the module.
    - Objects of class [XmlNode] are mutable and shared (the parser keeps
      them on its stack while they already hang in the tree), so they live
      in a store addressed by [nat]; a reference is an address.
    - A [list] passed as a tag path is mutated by the callee; the functions
      taking one return its final contents next to their result.
    - A raised exception is the [Raise] case of [Result].
    - Each [XmlNode] of the store has a list of children of its own; one
      Python list held by two nodes at once is not modelled, and the
      statements on the insert methods speak of the children of the node
      they change only.
    - The depth of the interpreter's stack is not modelled: where the
      module recurses once per level of the tree, the model gives the
      result the module gives when the stack is deep enough. *)

From Stdlib Require Import String Ascii List Arith Bool Lia.
From stdpp Require Import base list.
Import ListNotations.
Open Scope string_scope.

(** ** Characters and string literals *)

Definition dq : ascii := "034"%char.   (* the double quote *)
Definition sq : ascii := "039"%char.   (* the apostrophe *)
Definition TAB : ascii := "009"%char.
Definition LF : ascii := "010"%char.
Definition CR : ascii := "013"%char.
Definition DQ : string := String dq "".
Definition SQ : string := String sq "".
Definition NL : string := String LF "".

Definition code (c : ascii) : nat := nat_of_ascii c.
Definition between (lo hi : nat) (c : ascii) : bool :=
  ((lo <=? code c) && (code c <=? hi))%nat.

(** ** Python [str] built-ins *)
Module PyStr.

Definition startswith (s p : string) : bool := String.prefix p s.

Definition endswith (s p : string) : bool :=
  let n := String.length s in
  let k := String.length p in
  (k <=? n)%nat && String.eqb (substring (n - k) k s) p.

(** [str.isspace] on one character: [Py_UNICODE_ISSPACE] below 256. *)
Definition char_isspace (c : ascii) : bool :=
  between 9 13 c || between 28 32 c
  || (code c =? 133)%nat || (code c =? 160)%nat.

Fixpoint all_chars (p : ascii -> bool) (s : string) : bool :=
  match s with
  | "" => true
  | String c s' => p c && all_chars p s'
  end.

(** [s.isspace()]: at least one character, and all of them white. *)
Definition isspace (s : string) : bool :=
  match s with
  | "" => false
  | _ => all_chars char_isspace s
  end.

(** [str.lower] on code points below 256. *)
Definition char_lower (c : ascii) : ascii :=
  if between 65 90 c || between 192 214 c || between 216 222 c
  then ascii_of_nat (code c + 32) else c.

Fixpoint lower (s : string) : string :=
  match s with
  | "" => ""
  | String c s' => String (char_lower c) (lower s')
  end.

(** [s.replace(old, new)] for a non-empty [old]: the occurrences are
    found left to right and do not overlap; [skip] counts the characters
    of the occurrence just replaced that are still to be dropped. *)
Fixpoint replace_from (skip : nat) (old new s : string) : string :=
  match s with
  | "" => ""
  | String c s' =>
      match skip with
      | S k => replace_from k old new s'
      | O =>
          if String.prefix old s
          then new ++ replace_from (String.length old - 1) old new s'
          else String c (replace_from 0 old new s')
      end
  end.

(** With an empty [old], Python puts [new] before every character and
    at the end. *)
Fixpoint intersperse (new s : string) : string :=
  match s with
  | "" => new
  | String c s' => new ++ String c (intersperse new s')
  end.

Definition replace (s old new : string) : string :=
  match old with
  | "" => intersperse new s
  | _ => replace_from 0 old new s
  end.

(** ["".join(l)] *)
Definition join (l : list string) : string :=
  fold_right String.append "" l.

(** [str.splitlines] boundaries below 256. *)
Definition is_linebreak (c : ascii) : bool :=
  between 10 13 c || between 28 30 c || (code c =? 133)%nat.

(** [cur] is the line being read; [lf] tells that the previous character
    was a carriage return, whose line feed belongs to the same break. *)
Fixpoint splitlines_from (cur : string) (lf : bool) (s : string)
  : list string :=
  match s with
  | "" => match cur with "" => [] | _ => [cur] end
  | String c s' =>
      if lf && Ascii.eqb c LF then splitlines_from cur false s'
      else if is_linebreak c
           then cur :: splitlines_from "" (Ascii.eqb c CR) s'
           else splitlines_from (cur ++ String c "") false s'
  end.

Definition splitlines (s : string) : list string :=
  splitlines_from "" false s.

(** Truth value of a string, and of an optional string ([None] or
    [""] are false). *)
Definition truthy (s : string) : bool :=
  match s with "" => false | _ => true end.

Definition truthy_opt (o : option string) : bool :=
  match o with Some s => truthy s | None => false end.

(** [s.split(sep)] for a separator of one character: the pieces between
    the separators, at least one piece. *)
Fixpoint split (sep : ascii) (s : string) : list string :=
  match s with
  | "" => [""]
  | String c s' =>
      if Ascii.eqb c sep then "" :: split sep s'
      else match split sep s' with
           | piece :: l => String c piece :: l
           | [] => [String c ""]
           end
  end.

(** [sep.join(l)] *)
Fixpoint join_with (sep : string) (l : list string) : string :=
  match l with
  | [] => ""
  | [x] => x
  | x :: l' => x ++ sep ++ join_with sep l'
  end.

End PyStr.

(** ** The replacement table *)

(** [XML_REPLACEMENT_CHARS]: a dict literal, iterated in insertion order
    by [.items()]; each entry is (escaped, original). *)
Definition XML_REPLACEMENT_CHARS : list (string * string) :=
  [ ("&quot;", DQ);
    ("&apos;", SQ);
    ("&lt;", "<");
    ("&gt;", ">");
    ("&amp;", "&") ].

(** [XmlSerializer._encode_string], on a string value. *)
Definition _encode_string (value : string) : string :=
  fold_left (fun str '(escaped, original) => PyStr.replace str original escaped)
            XML_REPLACEMENT_CHARS value.

(** [XmlNode._decode_string]: only a true string is rewritten; [None] and
    the empty string come back as they are. *)
Definition _decode_string (value : option string) : option string :=
  match value with
  | Some v =>
      if PyStr.truthy v
      then Some (fold_left (fun str '(escaped, original) =>
                              PyStr.replace str escaped original)
                           XML_REPLACEMENT_CHARS v)
      else Some v
  | None => None
  end.

(** ** The matcher behind [re]

    [re] is a backtracking matcher: an alternation tries its branches
    left to right, a greedy repetition tries one more round before it
    tries what follows, a lazy one the other way round, and the first
    path that reaches the end of the pattern is the match.  The matcher
    is written in continuation-passing style, the continuation being what
    remains of the pattern. *)
Module Re.

Inductive regex : Type :=
| Eps                              (* the empty pattern *)
| Chr (p : ascii -> bool)          (* one character of a class *)
| Cat (a b : regex)                (* ab *)
| Alt (a b : regex)                (* a|b *)
| Star (a : regex)                 (* a* *)
| LazyStar (a : regex)             (* a*? *)
| Group (i : nat) (a : regex).     (* the i-th capturing group *)

(** Derived forms, as [sre] compiles them. *)
Definition Plus (a : regex) : regex := Cat a (Star a).      (* a+ *)
Definition Opt (a : regex) : regex := Alt a Eps.            (* a? *)

Fixpoint Lit (s : string) : regex :=                        (* literal text *)
  match s with
  | "" => Eps
  | String c s' => Cat (Chr (Ascii.eqb c)) (Lit s')
  end.

(** Character classes: [one_of "abc"] is [[abc]], [none_of] its
    negation. *)
Fixpoint mem (c : ascii) (s : string) : bool :=
  match s with
  | "" => false
  | String d s' => Ascii.eqb c d || mem c s'
  end.

Definition one_of (s : string) : regex := Chr (fun c => mem c s).
Definition none_of (s : string) : regex := Chr (fun c => negb (mem c s)).

(** The text captured by each group that took part in the match. *)
Definition captures := list (nat * string).

Fixpoint get_group (i : nat) (c : captures) : option string :=
  match c with
  | [] => None
  | (j, s) :: c' => if (i =? j)%nat then Some s else get_group i c'
  end.

(** [taken s s'] is the text between position [s] and the later
    position [s'], positions being given by what is still to read. *)
Definition taken (s s' : string) : string :=
  substring 0 (String.length s - String.length s') s.

Definition cont : Type := string -> captures -> option (string * captures).

Definition result : Type := option (string * captures).

(** The rounds of a greedy repetition whose body is matched by
    [body]: one more round first, what follows ([k]) when that fails.
    A round that reads nothing is refused, so a repetition at [s]
    makes at most [length s] rounds, which is what [n] counts. *)
Fixpoint greedy_rounds (body : string -> captures -> cont -> result)
    (k : cont) (n : nat) (s : string) (c : captures) : result :=
  match n with
  | O => k s c
  | S n' =>
      match body s c (fun s' c' =>
              if (String.length s' <? String.length s)%nat
              then greedy_rounds body k n' s' c' else None) with
      | Some m => Some m
      | None => k s c
      end
  end.

(** The rounds of a lazy repetition: what follows first. *)
Fixpoint lazy_rounds (body : string -> captures -> cont -> result)
    (k : cont) (n : nat) (s : string) (c : captures) : result :=
  match n with
  | O => k s c
  | S n' =>
      match k s c with
      | Some m => Some m
      | None =>
          body s c (fun s' c' =>
              if (String.length s' <? String.length s)%nat
              then lazy_rounds body k n' s' c' else None)
      end
  end.

(** [run r s c k]: match [r] at [s], then go on with [k]; [None] when
    every path fails. *)
Fixpoint run (r : regex) (s : string) (c : captures) (k : cont) : result :=
  match r with
  | Eps => k s c
  | Chr p =>
      match s with
      | String ch s' => if p ch then k s' c else None
      | "" => None
      end
  | Cat a b => run a s c (fun s' c' => run b s' c' k)
  | Alt a b =>
      match run a s c k with
      | Some m => Some m
      | None => run b s c k
      end
  | Star a => greedy_rounds (run a) k (String.length s) s c
  | LazyStar a => lazy_rounds (run a) k (String.length s) s c
  | Group i a => run a s c (fun s' c' => k s' ((i, taken s s') :: c'))
  end.

(** One attempt at the position [s].  [must_advance] is set by
    [findall] after an empty match: the next match may not be empty at
    the same position. *)
Definition match_at (r : regex) (must_advance : bool) (s : string)
  : option (string * captures) :=
  run r s [] (fun s' c =>
    if must_advance && (String.length s' =? String.length s)%nat
    then None else Some (s', c)).

(** [search]: the first position, from [s] on, where the pattern
    matches; the result is that position, the position after the match
    and the captures. *)
Fixpoint search (r : regex) (must_advance : bool) (s : string)
  : option (string * string * captures) :=
  match match_at r must_advance s with
  | Some (s', c) => Some (s, s', c)
  | None =>
      match s with
      | "" => None
      | String _ s' => search r false s'
      end
  end.

(** The loop of [findall]: each round either moves on or sets
    [must_advance], so [2 * length + 2] rounds are never used up. *)
Fixpoint scan (fuel : nat) (r : regex) (must_advance : bool) (s : string)
  : list (string * captures) :=
  match fuel with
  | O => []
  | S fuel' =>
      match search r must_advance s with
      | None => []
      | Some (start, rest, c) =>
          (taken start rest, c)
            :: scan fuel' r (String.length rest =? String.length start)%nat rest
      end
  end.

Definition matches (r : regex) (s : string) : list (string * captures) :=
  scan (2 * String.length s + 2) r false s.

(** [findall] of a pattern without groups: the matched texts. *)
Definition findall (r : regex) (s : string) : list string :=
  map fst (matches r s).

(** [findall] of a pattern with two groups: the pairs of captured
    texts (a group that took no part gives the empty string). *)
Definition findall2 (r : regex) (s : string) : list (string * string) :=
  map (fun m => (default "" (get_group 1 (snd m)),
                 default "" (get_group 2 (snd m)))) (matches r s).

End Re.

(** ** [RegexCollector]: the grammar, fragment by fragment *)
Module RegexCollector.
Import Re.

Definition ws : string := " " ++ String LF (String TAB (String CR "")).

(* \S: not [str.isspace] *)
Definition NonSpace : regex := Chr (fun c => negb (PyStr.char_isspace c)).
(* . : anything but a line feed *)
Definition Dot : regex := Chr (fun c => negb (Ascii.eqb c LF)).

(* (\S*?)=DQ(.*?)DQ, with DQ the double quote *)
Definition GetAttr : regex :=
  Cat (Group 1 (LazyStar NonSpace))
      (Cat (Lit ("=" ++ DQ)) (Cat (Group 2 (LazyStar Dot)) (Lit DQ))).
(* [^<]+ *)
Definition TextSE : regex := Plus (none_of "<").
(* [^-]*- *)
Definition UntilHyphen : regex := Cat (Star (none_of "-")) (Lit "-").
(* UntilHyphen(?:[^-]UntilHyphen)*- *)
Definition Until2Hyphens : regex :=
  Cat UntilHyphen (Cat (Star (Cat (none_of "-") UntilHyphen)) (Lit "-")).
(* Until2Hyphens>? *)
Definition CommentCE : regex := Cat Until2Hyphens (Opt (Lit ">")).
(* [^\]]*](?:[^\]]+])*]+ *)
Definition UntilRSBs : regex :=
  Cat (Star (none_of "]"))
      (Cat (Lit "]")
           (Cat (Star (Cat (Plus (none_of "]")) (Lit "]")))
                (Plus (Lit "]")))).
(* UntilRSBs(?:[^\]>]UntilRSBs)*> *)
Definition CDATA_CE : regex :=
  Cat UntilRSBs (Cat (Star (Cat (none_of "]>") UntilRSBs)) (Lit ">")).
(* [ \n\t\r]+ *)
Definition S_ : regex := Plus (one_of ws).
(* [A-Za-z_:]|[^\x00-\x7F] *)
Definition NameStrt : regex :=
  Alt (Chr (fun c => between 65 90 c || between 97 122 c || mem c "_:"))
      (Chr (fun c => negb (between 0 127 c))).
(* [A-Za-z0-9_:.-]|[^\x00-\x7F] *)
Definition NameChar : regex :=
  Alt (Chr (fun c => between 65 90 c || between 97 122 c
                     || between 48 57 c || mem c "_:.-"))
      (Chr (fun c => negb (between 0 127 c))).
(* (?:NameStrt)(?:NameChar)* *)
Definition Name : regex := Cat NameStrt (Star NameChar).
(* DQ[^DQ]*DQ|'[^']*' *)
Definition QuoteSE : regex :=
  Alt (Cat (Lit DQ) (Cat (Star (none_of DQ)) (Lit DQ)))
      (Cat (Lit SQ) (Cat (Star (none_of SQ)) (Lit SQ))).
(* S Name(?:S(?:Name|QuoteSE))* *)
Definition DT_IdentSE : regex :=
  Cat S_ (Cat Name (Star (Cat S_ (Alt Name QuoteSE)))).
(* (?:[^\]DQ'><]+|QuoteSE)*> *)
Definition MarkupDeclCE : regex :=
  Cat (Star (Alt (Plus (none_of ("]" ++ DQ ++ SQ ++ "><"))) QuoteSE))
      (Lit ">").
(* [\n\r\t ] *)
Definition S1 : regex := one_of ws.
(* [^?]*\?+ *)
Definition UntilQMs : regex := Cat (Star (none_of "?")) (Plus (Lit "?")).
(* \?>|S1 UntilQMs(?:[^>?]UntilQMs)*> *)
Definition PI_Tail : regex :=
  Alt (Lit "?>")
      (Cat S1 (Cat UntilQMs
                   (Cat (Star (Cat (none_of ">?") UntilQMs)) (Lit ">")))).
(* <(?:!(?:--Until2Hyphens>|[^-]MarkupDeclCE)|\?Name(?:PI_Tail))|%Name;|S *)
Definition DT_ItemSE : regex :=
  Alt (Cat (Lit "<")
           (Alt (Cat (Lit "!")
                     (Alt (Cat (Lit "--") (Cat Until2Hyphens (Lit ">")))
                          (Cat (none_of "-") MarkupDeclCE)))
                (Cat (Lit "?") (Cat Name PI_Tail))))
      (Alt (Cat (Lit "%") (Cat Name (Lit ";")))
           S_).
(* DT_IdentSE(?:S)?(?:\[(?:DT_ItemSE)*](?:S)?)?>? *)
Definition DocTypeCE : regex :=
  Cat DT_IdentSE
      (Cat (Opt S_)
           (Cat (Opt (Cat (Lit "[")
                          (Cat (Star DT_ItemSE) (Cat (Lit "]") (Opt S_)))))
                (Opt (Lit ">")))).
(* --(?:CommentCE)?|\[CDATA\[(?:CDATA_CE)?|DOCTYPE(?:DocTypeCE)? *)
Definition DeclCE : regex :=
  Alt (Cat (Lit "--") (Opt CommentCE))
      (Alt (Cat (Lit "[CDATA[") (Opt CDATA_CE))
           (Cat (Lit "DOCTYPE") (Opt DocTypeCE))).
(* Name(?:PI_Tail)? *)
Definition PI_CE : regex := Cat Name (Opt PI_Tail).
(* Name(?:S)?>? *)
Definition EndTagCE : regex := Cat Name (Cat (Opt S_) (Opt (Lit ">"))).
(* DQ[^<DQ]*DQ|'[^<']*' *)
Definition AttValSE : regex :=
  Alt (Cat (Lit DQ) (Cat (Star (none_of ("<" ++ DQ))) (Lit DQ)))
      (Cat (Lit SQ) (Cat (Star (none_of ("<" ++ SQ))) (Lit SQ))).
(* Name(?:S Name(?:S)?=(?:S)?(?:AttValSE))*(?:S)?/?>? *)
Definition ElemTagCE : regex :=
  Cat Name
      (Cat (Star (Cat S_ (Cat Name (Cat (Opt S_)
                    (Cat (Lit "=") (Cat (Opt S_) AttValSE))))))
           (Cat (Opt S_) (Cat (Opt (Lit "/")) (Opt (Lit ">"))))).
(* <(?:!(?:DeclCE)?|\?(?:PI_CE)?|/(?:EndTagCE)?|(?:ElemTagCE)?) *)
Definition MarkupSPE : regex :=
  Cat (Lit "<")
      (Alt (Cat (Lit "!") (Opt DeclCE))
           (Alt (Cat (Lit "?") (Opt PI_CE))
                (Alt (Cat (Lit "/") (Opt EndTagCE))
                     (Opt ElemTagCE)))).
(* TextSE|MarkupSPE *)
Definition XML_SPE : regex := Alt TextSE MarkupSPE.

End RegexCollector.

(** ** Exceptions *)

(** The three messages of [XmlException], with the values they are
    formatted from.  The numbers are what [_get_position] returns, under
    the names the raising code gives them. *)
Inductive XmlExceptionMsg : Type :=
| NoTagNameFound (token : string) (column line : nat)
    (* No tag name found for string {} (Column {}, Line {}). *)
| ClosingNodeNoOpenNode (tag : string) (column line : nat)
    (* Closing node {} found, but no open node (Column {}, Line {}) *)
| ClosingAndOpenDoNotMatch (tag open_tag : string) (column line : nat).
    (* Closing node tag ({}) and open node tag ({}) do not match ... *)

Inductive exn : Type :=
| XmlException (msg : XmlExceptionMsg)
| AssertionError        (* the [assert] of [_assert_lex] *)
| AttributeError        (* a method called on [None] or on a list *)
| IndexError            (* [pop] from an empty deque *)
| RecursionError.       (* a walk over a graph of nodes that has a cycle *)

Inductive Result (A : Type) : Type :=
| Ok (a : A)
| Raise (e : exn).
Arguments Ok {A} a.
Arguments Raise {A} e.

(** ** Objects *)

(** A reference is an address of the store. *)
Abbreviation addr := nat (only parsing).

(** A [dict] from strings to strings, in insertion order.  Assigning to a
    key that is present keeps its place. *)
Definition dict : Type := list (string * string).

Fixpoint dict_set (k v : string) (d : dict) : dict :=
  match d with
  | [] => [(k, v)]
  | (k', v') :: d' =>
      if String.eqb k k' then (k', v) :: d' else (k', v') :: dict_set k v d'
  end.

Fixpoint dict_get (k : string) (d : dict) : option string :=
  match d with
  | [] => None
  | (k', v) :: d' => if String.eqb k k' then Some v else dict_get k d'
  end.

(** An object of class [XmlNode]; [nodes] holds references. *)
Record XmlNode : Type := mkXmlNode {
  tag : string;
  attributes : dict;
  value : option string;
  nodes : list addr
}.

(** The store: the object at each address. *)
Abbreviation store := (list XmlNode) (only parsing).

(** [XmlNode.__init__(tag)], the other arguments at their defaults: the
    property setter decodes the initial [None]. *)
Definition XmlNode_init (t : string) : XmlNode :=
  {| tag := t; attributes := []; value := _decode_string None; nodes := [] |}.

(** [node.value = v]: the setter of the property. *)
Definition set_value (v : option string) (o : XmlNode) : XmlNode :=
  {| tag := tag o; attributes := attributes o;
     value := _decode_string v; nodes := nodes o |}.

Definition set_attributes (d : dict) (o : XmlNode) : XmlNode :=
  {| tag := tag o; attributes := d; value := value o; nodes := nodes o |}.

Definition set_nodes (l : list addr) (o : XmlNode) : XmlNode :=
  {| tag := tag o; attributes := attributes o; value := value o; nodes := l |}.

(** [node.nodes.append(a)] *)
Definition append_node (a : addr) (o : XmlNode) : XmlNode :=
  set_nodes (nodes o ++ [a])%list o.

(** An object of class [XmlRoot]. *)
Record XmlRoot : Type := mkXmlRoot {
  version : string;
  encoding : option string;
  standalone : option string;
  rootnode : option addr
}.

(** [XmlRoot.__init__]: the version is forced to a value. *)
Definition XmlRoot_init (version : option string)
    (encoding standalone : option string) (rootnode : option addr) : XmlRoot :=
  {| version := match version with
                | Some v => if PyStr.truthy v then v else "1.0"
                | None => "1.0"
                end;
     encoding := encoding;
     standalone := standalone;
     rootnode := rootnode |}.

(** [XmlRoot()] *)
Definition XmlRoot_default : XmlRoot :=
  XmlRoot_init None (Some "utf-8") None None.

(** ** [XmlParser] *)

(** The parser object, with the store its nodes live in and what it
    printed. *)
Record XmlParser : Type := mkXmlParser {
  xml_string : string;
  tokens : list string;
  tokens_processed : list string;      (* a deque, appended on the right *)
  xml_root : XmlRoot;
  current_node : option addr;
  parent_nodes : list addr;            (* a deque, the innermost last *)
  heap : store;
  stdout : list string
}.

(** Methods of the parser: a state and error monad over [XmlParser]. *)
Definition M (A : Type) : Type := XmlParser -> Result (A * XmlParser).

Definition ret {A} (a : A) : M A := fun p => Ok (a, p).
Definition raise {A} (e : exn) : M A := fun _ => Raise e.
Definition bind {A B} (c : M A) (f : A -> M B) : M B :=
  fun p => match c p with
           | Ok (a, p') => f a p'
           | Raise e => Raise e
           end.
Definition get : M XmlParser := fun p => Ok (p, p).
Definition modify (f : XmlParser -> XmlParser) : M unit := fun p => Ok (tt, f p).

Declare Scope parser_scope.
Delimit Scope parser_scope with parser.
Notation "x <- c ;; k" := (bind c (fun x => k))
  (at level 100, c at next level, k at level 200, right associativity)
  : parser_scope.
Notation "c ;; k" := (bind c (fun _ => k))
  (at level 100, k at level 200, right associativity) : parser_scope.

Definition with_tokens_processed l p :=
  mkXmlParser (xml_string p) (tokens p) l (xml_root p)
              (current_node p) (parent_nodes p) (heap p) (stdout p).
Definition with_xml_root r p :=
  mkXmlParser (xml_string p) (tokens p) (tokens_processed p) r
              (current_node p) (parent_nodes p) (heap p) (stdout p).
Definition with_current_node c p :=
  mkXmlParser (xml_string p) (tokens p) (tokens_processed p) (xml_root p)
              c (parent_nodes p) (heap p) (stdout p).
Definition with_parent_nodes l p :=
  mkXmlParser (xml_string p) (tokens p) (tokens_processed p) (xml_root p)
              (current_node p) l (heap p) (stdout p).
Definition with_heap h p :=
  mkXmlParser (xml_string p) (tokens p) (tokens_processed p) (xml_root p)
              (current_node p) (parent_nodes p) h (stdout p).
Definition with_stdout l p :=
  mkXmlParser (xml_string p) (tokens p) (tokens_processed p) (xml_root p)
              (current_node p) (parent_nodes p) (heap p) l.

Definition with_version v r :=
  mkXmlRoot v (encoding r) (standalone r) (rootnode r).
Definition with_encoding e r :=
  mkXmlRoot (version r) e (standalone r) (rootnode r).
Definition with_standalone s r :=
  mkXmlRoot (version r) (encoding r) s (rootnode r).
Definition with_rootnode n r :=
  mkXmlRoot (version r) (encoding r) (standalone r) n.

(** [print(a, b)] *)
Definition print (a b : string) : M unit :=
  modify (fun p => with_stdout (stdout p ++ [(a ++ " " ++ b)%string])%list p).

Section Parser.
Import RegexCollector.
Local Open Scope parser_scope.

(** [_get_attributes]: the dict comprehension over the pairs found. *)
Definition _get_attributes (str : string) : dict :=
  fold_left (fun d '(k, v) => dict_set k v d) (Re.findall2 GetAttr str) [].

(** [_get_position]: ([len(lines)], [len(lines[-1])]) of the text
    processed so far. *)
Definition _get_position : M (nat * nat) :=
  p <- get ;;
  let lines := PyStr.splitlines (PyStr.join (tokens_processed p)) in
  match last lines with
  | None => ret (0, 0)
  | Some l => ret (length lines, String.length l)
  end.

Definition _get_tag (str : string) : M string :=
  match Re.findall Name str with
  | [] =>
      pos <- _get_position ;;
      raise (XmlException (NoTagNameFound str (fst pos) (snd pos)))
  | t :: _ => ret t
  end.

(** [_assert_lex] *)
Definition _assert_lex (tokens : list string) (xml_string : string)
  : Result unit :=
  if String.eqb (PyStr.join tokens) xml_string
  then Ok tt else Raise AssertionError.

(** [XmlParser.__init__] from the line [self._assert_lex()] on: [tokens]
    is the list that [self._findall] has just stored in [self.tokens].
    The check comes first, so that a list that does not join to the text
    leaves no parser behind. *)
Definition XmlParser_of_tokens (tokens : list string) (xmlstring : string)
    (xml_root : option XmlRoot) (h : store) : Result XmlParser :=
  match _assert_lex tokens xmlstring with
  | Raise e => Raise e
  | Ok _ =>
      Ok {| xml_string := xmlstring;
            tokens := tokens;
            tokens_processed := [];
            xml_root := match xml_root with
                        | Some r => r
                        | None => XmlRoot_default
                        end;
            current_node := None;
            parent_nodes := [];
            heap := h;
            stdout := [] |}
  end.

(** [XmlParser.__init__]: [h] is the store at the time of the call. *)
Definition XmlParser_init (xmlstring : string) (xml_root : option XmlRoot)
    (h : store) : Result XmlParser :=
  let tokens := Re.findall XML_SPE xmlstring in
  XmlParser_of_tokens tokens xmlstring xml_root h.

Definition _process_procinstr (token : string) : M unit :=
  print "PROCINSTR" token.

Definition _process_xmldeclaration (token : string) : M unit :=
  let attributes := _get_attributes token in
  (match dict_get "version" attributes with
   | Some v => modify (fun p => with_xml_root (with_version v (xml_root p)) p)
   | None => ret tt
   end) ;;
  (match dict_get "encoding" attributes with
   | Some v =>
       modify (fun p => with_xml_root (with_encoding (Some v) (xml_root p)) p)
   | None => ret tt
   end) ;;
  (match dict_get "standalone" attributes with
   | Some v =>
       modify (fun p => with_xml_root (with_standalone (Some v) (xml_root p)) p)
   | None => ret tt
   end).

Definition _process_startnode (token : string) : M unit :=
  t <- _get_tag token ;;
  p <- get ;;
  (* node = XmlNode(...): a new object *)
  let node := length (heap p) in
  modify (with_heap (heap p ++ [XmlNode_init t])%list) ;;
  modify (with_current_node (Some node)) ;;
  modify (fun p => with_heap
                     (alter (set_attributes (_get_attributes token)) node (heap p)) p) ;;
  (match last (parent_nodes p) with
   | None =>
       modify (fun p => with_xml_root (with_rootnode (Some node) (xml_root p)) p)
   | Some top =>
       modify (fun p => with_heap (alter (append_node node) top (heap p)) p)
   end) ;;
  modify (fun p => with_parent_nodes (parent_nodes p ++ [node])%list p).

Definition _process_endnode (token : string) : M unit :=
  t <- _get_tag token ;;
  p <- get ;;
  match current_node p with
  | None =>
      pos <- _get_position ;;
      raise (XmlException (ClosingNodeNoOpenNode t (fst pos) (snd pos)))
  | Some cur =>
      match heap p !! cur with
      | None => raise AttributeError   (* no object: not a reference *)
      | Some o =>
          if negb (String.eqb (tag o) t)
          then
            pos <- _get_position ;;
            raise (XmlException
                     (ClosingAndOpenDoNotMatch t (tag o) (fst pos) (snd pos)))
          else
            match parent_nodes p with
            | [] => raise IndexError
            | _ =>
                let stack := removelast (parent_nodes p) in
                modify (with_parent_nodes stack) ;;
                modify (with_current_node (last stack))
            end
      end
  end.

(** The body of the loop of [parse_xml]. *)
Definition process_token (token : string) : M unit :=
  (if PyStr.startswith token "<" then
     if PyStr.startswith token "<!--" then ret tt
     else if PyStr.startswith token "<![CDATA" then ret tt
     else if PyStr.startswith token "<!ELEMENT" then ret tt
     else if PyStr.startswith token "<!ATTLIST" then ret tt
     else if PyStr.startswith token "<!ENTITY" then ret tt
     else if PyStr.startswith token "<!DOCTYPE" then ret tt
     else if PyStr.startswith token "<!" then ret tt
     else if PyStr.startswith token "<?xml" then _process_xmldeclaration token
     else if PyStr.startswith token "<?" then _process_procinstr token
     else if PyStr.startswith token "</" then _process_endnode token
     else if PyStr.endswith token "/>" then
       _process_startnode token ;; _process_endnode token
     else if PyStr.endswith token ">" then _process_startnode token
     else print "error:" token
   else
     p <- get ;;
     match current_node p with
     | Some cur =>
         if PyStr.truthy token && negb (PyStr.isspace token)
         then modify (fun p => with_heap
                        (alter (set_value (Some token)) cur (heap p)) p)
         else ret tt
     | None => ret tt
     end) ;;
  modify (fun p => with_tokens_processed (tokens_processed p ++ [token])%list p).

Fixpoint process_tokens (l : list string) : M unit :=
  match l with
  | [] => ret tt
  | token :: l' => process_token token ;; process_tokens l'
  end.

(** [parse_xml] *)
Definition parse_xml : M XmlRoot :=
  p <- get ;;
  process_tokens (tokens p) ;;
  p' <- get ;;
  ret (xml_root p').

(** The constructor from the tokens on, followed by [parse_xml]: what
    [XmlParser(xmlstring, xml_root).parse_xml()] does once [_findall] has
    returned [tokens]. *)
Definition parse_of_tokens (tokens : list string) (xmlstring : string)
    (xml_root : option XmlRoot) (h : store) : Result XmlParser :=
  match XmlParser_of_tokens tokens xmlstring xml_root h with
  | Raise e => Raise e
  | Ok p =>
      match parse_xml p with
      | Raise e => Raise e
      | Ok (_, p') => Ok p'
      end
  end.

(** [XmlParser(xmlstring, xml_root).parse_xml()], in the store [h];
    the result is the final parser, whose [xml_root] is what
    [parse_xml] returns. *)
Definition parse (xmlstring : string) (xml_root : option XmlRoot) (h : store)
  : Result XmlParser :=
  match XmlParser_init xmlstring xml_root h with
  | Raise e => Raise e
  | Ok p =>
      match parse_xml p with
      | Raise e => Raise e
      | Ok (_, p') => Ok p'
      end
  end.

End Parser.

Set Warnings "-register-all".

(** ** Trees of nodes

    The serializer and [is_empty] only read the objects, walking down
    the [nodes] lists.  What they see from a node is a finite tree (on a
    graph with a cycle the Python recursion does not end normally), and
    they are defined on that tree; [snapshot] reads it off the store. *)
Inductive Tree : Type :=
| Node (tag : string) (attributes : dict) (value : option string)
       (nodes : list Tree).

(** [fuel] bounds the depth; a store of [n] objects without a cycle has
    no path longer than [n]. *)
Fixpoint snapshot (fuel : nat) (h : store) (a : addr) : option Tree :=
  match fuel with
  | O => None
  | S fuel' =>
      match h !! a with
      | None => None
      | Some o =>
          match mapM (snapshot fuel' h) (nodes o) with
          | None => None
          | Some kids => Some (Node (tag o) (attributes o) (value o) kids)
          end
      end
  end.

Definition tree_of (h : store) (a : addr) : option Tree :=
  snapshot (length h) h a.

Definition nonempty {A} (l : list A) : bool :=
  match l with [] => false | _ => true end.

(** [XmlNode.is_empty], with [nodes_are_empty] as the loop over the
    children. *)
Fixpoint is_empty (n : Tree) : bool :=
  match n with
  | Node _ attributes value nodes =>
      if PyStr.truthy_opt value || nonempty attributes then false
      else if negb (nonempty nodes) then true
      else forallb is_empty nodes
  end.

Definition nodes_are_empty (n : Tree) : bool :=
  match n with
  | Node _ _ _ nodes => forallb is_empty nodes
  end.

(** ** [XmlSerializer] *)

(** [_attributes_to_xml], on a dict of strings. *)
Definition _attributes_to_xml (attributes : dict) : string :=
  fold_left (fun output '(key, value) =>
               let value := PyStr.replace value DQ "&quot;" in
               output ++ key ++ "=" ++ DQ ++ value ++ DQ ++ " ")
            attributes "".

Fixpoint tabs (n : nat) : string :=
  match n with
  | O => ""
  | S n' => String TAB (tabs n')
  end.

(** [_to_xml]; [children] is the loop over [node.nodes], carrying [xml]
    and [newlineString]. *)
Fixpoint _to_xml (node : Tree) (intendation : nat) : string :=
  match node with
  | Node tag attributes value nodes =>
      let intendationString := tabs intendation in
      if is_empty node then ""
      else
        let xml :=
          if nonempty attributes
          then intendationString ++ "<" ++ tag ++ " "
                 ++ _attributes_to_xml attributes
          else intendationString ++ "<" ++ tag in
        if (negb (nonempty nodes) || nodes_are_empty node)
           && negb (PyStr.truthy_opt value)
        then xml ++ "/>"
        else
          let xml := xml ++ ">" in
          let xml :=
            if nonempty nodes then
              let fix children (l : list Tree) (xml newlineString : string) :=
                match l with
                | [] => xml ++ newlineString ++ intendationString
                | newNode :: l' =>
                    children l' (xml ++ NL ++ _to_xml newNode (S intendation)) NL
                end in
              children nodes xml ""
            else
              match value with
              | Some v => if PyStr.truthy v then xml ++ _encode_string v else xml
              | None => xml
              end in
          xml ++ "</" ++ tag ++ ">"
  end.

(** The attributes of the declaration line, as [serialize_xml] collects
    them. *)
Definition declaration_attributes (r : XmlRoot) : dict :=
  let attributes := [] in
  let attributes :=
    if PyStr.truthy (version r)
    then dict_set "version" (version r) attributes else attributes in
  let attributes :=
    match encoding r with
    | Some e => if PyStr.truthy e then dict_set "encoding" e attributes
                else attributes
    | None => attributes
    end in
  match standalone r with
  | Some s => if PyStr.truthy s then dict_set "standalone" s attributes
              else attributes
  | None => attributes
  end.

(** [serialize_xml] of a serializer made for [r], in the store [h]. *)
Definition serialize_xml (h : store) (r : XmlRoot) : Result string :=
  let attributes := declaration_attributes r in
  let xml_string :=
    if nonempty attributes
    then "<?xml " ++ _attributes_to_xml attributes ++ " ?>" ++ NL
    else "" in
  match rootnode r with
  | None => Raise AttributeError
  | Some a =>
      match tree_of h a with
      | None => Raise RecursionError
      | Some t => Ok (xml_string ++ _to_xml t 0)
      end
  end.

(** [XmlRoot.to_xml] *)
Definition to_xml (h : store) (r : XmlRoot) : Result string :=
  serialize_xml h r.

(** ** Queries and inserts of [XmlNode] *)

(** The [tag] argument: a string, or a list of strings that the callee
    may change. *)
Inductive tagarg : Type :=
| Tag (s : string)
| Path (l : list string).

(** [get_all_nodes], for a string. *)
Definition get_all_nodes (h : store) (self : addr) (tag_ : string)
  : list addr :=
  match h !! self with
  | None => []
  | Some o =>
      List.filter (fun a => match h !! a with
                            | Some n => String.eqb (PyStr.lower (tag n))
                                                   (PyStr.lower tag_)
                            | None => false
                            end) (nodes o)
  end.

(** [get_first_node], for a string. *)
Definition get_first_node_tag (h : store) (self : addr) (tag_ : string)
  : option addr :=
  head (get_all_nodes h self tag_).

(** [get_first_node], for a list: the result and the list as the call
    leaves it.  [RAISE_NONE_ERROR] is [False].  An empty list reaches
    [get_all_nodes], where [tag.lower()] fails on the first child. *)
Fixpoint get_first_node_path (h : store) (self : addr) (l : list string)
  : Result (option addr * list string) :=
  match l with
  | [] =>
      match h !! self with
      | Some o => if nonempty (nodes o) then Raise AttributeError
                  else Ok (None, [])
      | None => Ok (None, [])
      end
  | [t] => Ok (get_first_node_tag h self t, l)
  | tmp_tag :: rest =>                      (* tmp_tag = tag.pop(0) *)
      match get_first_node_tag h self tmp_tag with
      | None => Ok (None, rest)
      | Some subnode => get_first_node_path h subnode rest
      end
  end.

Definition get_first_node (h : store) (self : addr) (t : tagarg)
  : Result (option addr * tagarg) :=
  match t with
  | Tag s => Ok (get_first_node_tag h self s, t)
  | Path l =>
      match get_first_node_path h self l with
      | Ok (r, l') => Ok (r, Path l')
      | Raise e => Raise e
      end
  end.

(** [list.index], on references. *)
Fixpoint index_of (a : addr) (l : list addr) : option nat :=
  match l with
  | [] => None
  | b :: l' => if (a =? b)%nat then Some 0
               else option_map S (index_of a l')
  end.

(** [list.insert(i, x)] *)
Definition list_insert_at {A} (i : nat) (x : A) (l : list A) : list A :=
  (take i l ++ x :: drop i l)%list.

(** [get_index]: no index for a list. *)
Definition get_index (h : store) (self : addr) (t : tagarg) : option nat :=
  match t with
  | Path _ => None
  | Tag s =>
      match get_first_node_tag h self s, h !! self with
      | Some node, Some o => index_of node (nodes o)
      | _, _ => None
      end
  end.

(** [_insert_helper]: the store and the [tag] argument as the call leaves
    them. *)
Definition _insert_helper (h : store) (self : addr) (t : tagarg)
    (node : addr) (add : nat) : Result (store * tagarg) :=
  let finish (t' : tagarg) (index_tag : string) (parentnode : option addr) :=
    match parentnode with
    | None => Ok (h, t')
    | Some parent =>
        match get_index h parent (Tag index_tag) with
        | Some index =>
            Ok (alter (fun o => set_nodes
                         (list_insert_at (index + add) node (nodes o)) o)
                      parent h, t')
        | None => Ok (h, t')
        end
    end in
  match t with
  | Path [] => Ok (h, t)
  | Path [index_tag] => finish t index_tag (Some self)
  | Path l =>
      match last l with
      | None => Ok (h, t)
      | Some index_tag =>                   (* index_tag = tag.pop(-1) *)
          match get_first_node_path h self (removelast l) with
          | Raise e => Raise e
          | Ok (parentnode, l') => finish (Path l') index_tag parentnode
          end
      end
  | Tag index_tag => finish t index_tag (Some self)
  end.

Definition insert_before (h : store) (self : addr) (t : tagarg) (node : addr)
  : Result (store * tagarg) :=
  _insert_helper h self t node 0.

Definition insert_after (h : store) (self : addr) (t : tagarg) (node : addr)
  : Result (store * tagarg) :=
  _insert_helper h self t node 1.

(** ** The other methods of [XmlNode] *)
Module NodeApi.

(** The name under which [namespaces] files an attribute that begins
    with xmlns: what [split] gives decides. *)
Definition namespace_prefix (attribute : string) : string :=
  let split_string := PyStr.split ":" attribute in
  match split_string with
  | [_] => "vtc_global_ns"
  | [_; prefix] => prefix
  | _ => PyStr.join_with ":" (tail split_string)
  end.

(** The property [namespaces]. *)
Definition namespaces (o : XmlNode) : dict :=
  fold_left (fun namespaces '(attribute, uri) =>
               if negb (PyStr.startswith attribute "xmlns") then namespaces
               else dict_set (namespace_prefix attribute) uri namespaces)
            (attributes o) [].

(** [get_value]: [None] when no node is found, else the value of the
    node (which may be [None] too). *)
Definition get_value (h : store) (self : addr) (t : tagarg)
  : Result (option string * tagarg) :=
  match get_first_node h self t with
  | Raise e => Raise e
  | Ok (None, t') => Ok (None, t')
  | Ok (Some node, t') =>
      match h !! node with
      | Some o => Ok (value o, t')
      | None => Raise AttributeError   (* no object: not a reference *)
      end
  end.

(** [set_value(tag, value)]: through the setter of the property. *)
Definition set_value (h : store) (self : addr) (t : tagarg)
    (v : option string) : Result (store * tagarg) :=
  match get_first_node h self t with
  | Raise e => Raise e
  | Ok (None, t') => Ok (h, t')
  | Ok (Some node, t') => Ok (alter (set_value v) node h, t')
  end.

Definition get_nodes (h : store) (self : addr) (t : tagarg)
  : Result (option (list addr) * tagarg) :=
  match get_first_node h self t with
  | Raise e => Raise e
  | Ok (None, t') => Ok (None, t')
  | Ok (Some node, t') =>
      match h !! node with
      | Some o => Ok (Some (nodes o), t')
      | None => Raise AttributeError
      end
  end.

Definition set_nodes (h : store) (self : addr) (t : tagarg)
    (l : list addr) : Result (store * tagarg) :=
  match get_first_node h self t with
  | Raise e => Raise e
  | Ok (None, t') => Ok (h, t')
  | Ok (Some node, t') => Ok (alter (set_nodes l) node h, t')
  end.

Definition get_attributes (h : store) (self : addr) (t : tagarg)
  : Result (option dict * tagarg) :=
  match get_first_node h self t with
  | Raise e => Raise e
  | Ok (None, t') => Ok (None, t')
  | Ok (Some node, t') =>
      match h !! node with
      | Some o => Ok (Some (attributes o), t')
      | None => Raise AttributeError
      end
  end.

Definition set_attributes (h : store) (self : addr) (t : tagarg)
    (d : dict) : Result (store * tagarg) :=
  match get_first_node h self t with
  | Raise e => Raise e
  | Ok (None, t') => Ok (h, t')
  | Ok (Some node, t') => Ok (alter (set_attributes d) node h, t')
  end.

End NodeApi.

(** ** Vocabulary of the statements *)

(** [after s s']: the position [s'] is reached from [s] by reading on. *)
Definition after (s s' : string) : Prop := exists p, s = p ++ s'.

(** A continuation of the matcher is sound when the position it ends at
    is after the one it was given. *)
Definition sound (k : Re.cont) : Prop :=
  forall x c y c', k x c = Some (y, c') -> after x y.

(** The continuation at the end of a pattern. *)
Definition accept : Re.cont := fun s c => Some (s, c).

(** The tree under the root node of a parsed document. *)
Definition root_tree_of (p : XmlParser) : option Tree :=
  match rootnode (xml_root p) with
  | Some a => tree_of (heap p) a
  | None => None
  end.

(** [XmlSerializer(root)._to_xml(root.rootnode, 0)] *)
Definition render_root (p : XmlParser) : Result string :=
  match rootnode (xml_root p) with
  | None => Raise AttributeError
  | Some a =>
      match tree_of (heap p) a with
      | None => Raise RecursionError
      | Some t => Ok (_to_xml t 0)
      end
  end.

(** What the specification calls MismatchedCloseTagError, for the
    closing tag [t]: the two messages that [_process_endnode] raises
    once it has the tag. *)
Definition MismatchedCloseTagError (t : string) (e : exn) : Prop :=
  match e with
  | XmlException (ClosingNodeNoOpenNode t' _ _) => t' = t
  | XmlException (ClosingAndOpenDoNotMatch t' open_tag _ _) =>
      t' = t /\ open_tag <> t
  | _ => False
  end.

(** The tokens that reach the self-closing branch of [parse_xml]. *)
Definition self_closing (token : string) : bool :=
  PyStr.startswith token "<"
  && negb (PyStr.startswith token "<!")
  && negb (PyStr.startswith token "<?")
  && negb (PyStr.startswith token "</")
  && PyStr.endswith token "/>".

(** The state the parser keeps between tokens: the open nodes are
    objects of the store, and the current node is the innermost one. *)
Definition stack_ok (p : XmlParser) : Prop :=
  Forall (fun a => a < length (heap p)) (parent_nodes p)
  /\ current_node p = last (parent_nodes p).

(** The node at [a] is closed: it exists and is not on the stack. *)
Definition closed (a : addr) (p : XmlParser) : Prop :=
  a < length (heap p)
  /\ Forall (fun b => b <> a) (parent_nodes p)
  /\ current_node p = last (parent_nodes p).

(** The declaration line that [serialize_xml] puts in front. *)
Definition declaration_line (r : XmlRoot) : string :=
  if nonempty (declaration_attributes r)
  then "<?xml " ++ _attributes_to_xml (declaration_attributes r) ++ " ?>" ++ NL
  else "".

(** The documents of the examples. *)
Definition doc_round_trip : string :=
  "<r a=" ++ DQ ++ "1" ++ DQ ++ "><c>text &amp; more</c></r>".

(** [<r a="1">], a line feed, a tab, the child, a line feed, [</r>]. *)
Definition round_trip_without_space : string :=
  "<r a=" ++ DQ ++ "1" ++ DQ ++ ">" ++ NL
    ++ String TAB "<c>text &amp; more</c>" ++ NL ++ "</r>".

(** The same with the space that follows every attribute. *)
Definition round_trip_with_space : string :=
  "<r a=" ++ DQ ++ "1" ++ DQ ++ " >" ++ NL
    ++ String TAB "<c>text &amp; more</c>" ++ NL ++ "</r>".

Definition declaration_token : string :=
  "<?xml version=" ++ DQ ++ "1.1" ++ DQ
    ++ " encoding=" ++ DQ ++ "utf-8" ++ DQ ++ "?>".

Definition doc_declaration : string :=
  declaration_token ++ "<r a=" ++ DQ ++ "1" ++ DQ ++ "/>".

(** The declaration line with one space before the closing mark ... *)
Definition declaration_line_one_space : string :=
  "<?xml version=" ++ DQ ++ "1.1" ++ DQ
    ++ " encoding=" ++ DQ ++ "utf-8" ++ DQ ++ " ?>" ++ NL.

(** ... and with the two spaces that are written. *)
Definition declaration_line_two_spaces : string :=
  "<?xml version=" ++ DQ ++ "1.1" ++ DQ
    ++ " encoding=" ++ DQ ++ "utf-8" ++ DQ ++ "  ?>" ++ NL.

(** A declaration whose version is the empty string. *)
Definition doc_empty_version : string :=
  "<?xml version=" ++ DQ ++ DQ ++ "?><a/>".

(** [n] is one of the nodes of [parent]. *)
Definition child_of (h : store) (parent n : addr) : Prop :=
  exists o, h !! parent = Some o /\ In n (nodes o).

(** A store with the chain r > a > b > c, [c] holding the value x. *)
Definition chain_store : store :=
  [ mkXmlNode "r" [] None [1];
    mkXmlNode "a" [] None [2];
    mkXmlNode "b" [] None [3];
    mkXmlNode "c" [] (Some "x") [] ].

(** A method keeps the closed node at [a] as it is. *)
Definition keeps (a : addr) (m : M unit) : Prop :=
  forall p p', closed a p -> m p = Ok (tt, p') ->
               closed a p' /\ heap p' !! a = heap p !! a.

(** ** Vocabulary of the further statements *)

(** The text [s] with every ampersand written as its entity. *)
Fixpoint ampersands_escaped (s : string) : string :=
  match s with
  | "" => ""
  | String c s' =>
      if Ascii.eqb c "&" then "&amp;" ++ ampersands_escaped s'
      else String c (ampersands_escaped s')
  end.

(** The four characters that come before the ampersand in the table. *)
Definition is_markup_char (c : ascii) : bool :=
  Ascii.eqb c dq || Ascii.eqb c sq || Ascii.eqb c "<" || Ascii.eqb c ">".

Definition not_lt (c : ascii) : bool := negb (Ascii.eqb c "<").

(** What one attribute looks like in the output. *)
Definition attribute_text (kv : string * string) : string :=
  fst kv ++ "=" ++ DQ ++ PyStr.replace (snd kv) DQ "&quot;" ++ DQ ++ " ".

(** The test of [get_all_nodes] on one node. *)
Definition tag_matches (h : store) (tag_ : string) (a : addr) : bool :=
  match h !! a with
  | Some n => String.eqb (PyStr.lower (tag n)) (PyStr.lower tag_)
  | None => false
  end.

(** A path resolved tag by tag, each among the children of the node
    found before. *)
Fixpoint resolve (h : store) (self : addr) (l : list string) : option addr :=
  match l with
  | [] => Some self
  | t :: l' =>
      match get_first_node_tag h self t with
      | Some n => resolve h n l'
      | None => None
      end
  end.

(** In the store the parser builds, the nodes of an object are objects
    made after it. *)
Definition heap_ok (h : list XmlNode) : Prop :=
  forall a o, h !! a = Some o ->
              Forall (fun b => a < b /\ b < length h) (nodes o).

Definition root_ok (p : XmlParser) : Prop :=
  forall a, rootnode (xml_root p) = Some a -> a < length (heap p).

Definition parser_ok (p : XmlParser) : Prop :=
  stack_ok p /\ heap_ok (heap p) /\ root_ok p.

(** A change of an object that keeps its tag and its nodes. *)
Definition keeps_shape (f : XmlNode -> XmlNode) : Prop :=
  forall o, tag (f o) = tag o /\ nodes (f o) = nodes o.

(** A method keeps a property of the parser when it returns. *)
Definition preserves (I : XmlParser -> Prop) (m : M unit) : Prop :=
  forall p p', I p -> m p = Ok (tt, p') -> I p'.

(** From a parser with the property, a method raises nothing but
    [XmlException]. *)
Definition raises_only_XmlException (I : XmlParser -> Prop) (m : M unit)
  : Prop :=
  forall p e, I p -> m p = Raise e -> exists msg, e = XmlException msg.

(** The three values of the declaration, as a property of the parser. *)
Definition header_is (v : string) (e s : option string) (p : XmlParser)
  : Prop :=
  version (xml_root p) = v /\ encoding (xml_root p) = e
  /\ standalone (xml_root p) = s.

(** The loop of [namespaces], from any dictionary on. *)
Definition namespaces_from (l acc : dict) : dict :=
  fold_left (fun namespaces '(attribute, uri) =>
               if negb (PyStr.startswith attribute "xmlns") then namespaces
               else dict_set (NodeApi.namespace_prefix attribute) uri
                             namespaces)
            l acc.

(** * Properties *)

(** ** Strings and positions *)

Lemma length_append (a b : string) :
  String.length (a ++ b) = String.length a + String.length b.
Proof. induction a as [|ch a IH]; simpl; [reflexivity | now rewrite IH]. Qed.

Lemma append_nil_r (a : string) : a ++ "" = a.
Proof. induction a as [|ch a IH]; simpl; [reflexivity | now rewrite IH]. Qed.

Lemma append_assoc (a b c : string) : (a ++ b) ++ c = a ++ b ++ c.
Proof. induction a as [|ch a IH]; simpl; [reflexivity | now rewrite IH]. Qed.

Lemma substring_append (a b : string) :
  substring 0 (String.length a) (a ++ b) = a.
Proof.
  induction a as [|ch a IH]; simpl.
  - now destruct b.
  - now rewrite IH.
Qed.

Lemma after_refl s : after s s.
Proof. now exists "". Qed.

Lemma after_trans s1 s2 s3 : after s1 s2 -> after s2 s3 -> after s1 s3.
Proof.
  intros [p ->] [q ->]. exists (p ++ q). now rewrite append_assoc.
Qed.

Lemma after_cons ch s s' : after s s' -> after (String ch s) s'.
Proof. intros [p ->]. now exists (String ch p). Qed.

Lemma after_length s s' : after s s' -> String.length s' <= String.length s.
Proof. intros [p ->]. rewrite length_append. lia. Qed.

Lemma taken_after s s' : after s s' -> (Re.taken s s' ++ s')%string = s.
Proof.
  intros [p ->]. unfold Re.taken. rewrite length_append.
  replace (String.length p + String.length s' - String.length s')
    with (String.length p) by lia.
  now rewrite substring_append.
Qed.

(** ** The matcher only reads on *)
Section Matcher.
Import Re.

Lemma sound_accept : sound accept.
Proof. intros x c y c' [= <- _]. apply after_refl. Qed.

Lemma sound_guard (f : string -> captures -> result) s :
  (forall x c y c', f x c = Some (y, c') -> after x y) ->
  sound (fun s' c' =>
           if (String.length s' <? String.length s)%nat then f s' c' else None).
Proof.
  intros Hf x c y c'. destruct (_ <? _)%nat; [apply Hf | discriminate].
Qed.

Section Rounds.
Variable body : string -> captures -> cont -> result.
Hypothesis body_after :
  forall s c k y c', sound k -> body s c k = Some (y, c') -> after s y.

Lemma greedy_rounds_after k n :
  sound k ->
  forall s c y c', greedy_rounds body k n s c = Some (y, c') -> after s y.
Proof.
  intros Hk. induction n as [|n IH]; intros s c y c'; simpl.
  - apply Hk.
  - destruct (body s c _) as [[y1 c1]|] eqn:E.
    + intros [= -> ->]. eapply body_after; [| exact E].
      apply sound_guard. exact IH.
    + apply Hk.
Qed.

Lemma lazy_rounds_after k n :
  sound k ->
  forall s c y c', lazy_rounds body k n s c = Some (y, c') -> after s y.
Proof.
  intros Hk. induction n as [|n IH]; intros s c y c'; simpl.
  - apply Hk.
  - destruct (k s c) as [[y1 c1]|] eqn:E.
    + intros [= -> ->]. eapply Hk, E.
    + intros H. eapply body_after; [| exact H].
      apply sound_guard. exact IH.
Qed.
End Rounds.

Lemma run_after r :
  forall s c k y c', sound k -> run r s c k = Some (y, c') -> after s y.
Proof.
  induction r as [|p|a IHa b IHb|a IHa b IHb|a IHa|a IHa|i a IHa];
    intros s c k y c' Hk; simpl.
  - apply Hk.
  - destruct s as [|ch s]; [discriminate|].
    destruct (p ch); [|discriminate].
    intros H. apply after_cons. eapply Hk, H.
  - apply IHa. intros x cx z cz. now apply IHb.
  - destruct (run a s c k) as [[y1 c1]|] eqn:E.
    + intros [= -> ->]. eapply IHa, E. exact Hk.
    + now apply IHb.
  - apply greedy_rounds_after; [|exact Hk].
    intros s0 c0 k0 y0 c0' Hk0. now apply IHa.
  - apply lazy_rounds_after; [|exact Hk].
    intros s0 c0 k0 y0 c0' Hk0. now apply IHa.
  - apply IHa. intros x cx z cz H. eapply Hk, H.
Qed.

(** A greedy repetition in front of a continuation that accepts
    everything cannot fail. *)
Lemma greedy_rounds_accept body n s c :
  exists y c', greedy_rounds body accept n s c = Some (y, c').
Proof.
  destruct n as [|n]; simpl.
  - now exists s, c.
  - destruct (body s c _) as [[y c']|]; [now exists y, c' | now exists s, c].
Qed.

(** A run of text: [p+] at a character of the class. *)
Lemma run_plus_class p ch s :
  p ch = true ->
  exists y c, run (Plus (Chr p)) (String ch s) [] accept = Some (y, c)
              /\ after s y.
Proof.
  intros Hp. unfold Plus. cbn [run]. rewrite Hp.
  destruct (greedy_rounds_accept (run (Chr p)) (String.length s) s [])
    as (y & c & E).
  exists y, c. split; [exact E|].
  eapply (run_after (Star (Chr p))); [apply sound_accept | exact E].
Qed.

Lemma run_plus_other p ch s c k :
  p ch = false -> run (Plus (Chr p)) (String ch s) c k = None.
Proof. intros Hp. unfold Plus. cbn [run]. now rewrite Hp. Qed.

(** Markup: after the opening bracket, the last branch is optional,
    so some branch matches. *)
Lemma run_markup (A B C E : regex) s :
  exists y c,
    run (Cat (Lit "<") (Alt A (Alt B (Alt C (Opt E)))))
        (String "<" s) [] accept = Some (y, c)
    /\ after s y.
Proof.
  cbn [Lit run Ascii.eqb Bool.eqb].
  assert (H : forall R, run R s [] accept = None \/
                        exists y c, run R s [] accept = Some (y, c) /\ after s y).
  { intros R. destruct (run R s [] accept) as [[y c]|] eqn:HR; [right|now left].
    exists y, c. split; [reflexivity|].
    eapply run_after; [apply sound_accept | exact HR]. }
  destruct (H A) as [-> | (y & c & -> & Hy)]; [|now exists y, c].
  destruct (H B) as [-> | (y & c & -> & Hy)]; [|now exists y, c].
  destruct (H C) as [-> | (y & c & -> & Hy)]; [|now exists y, c].
  unfold Opt. cbn [run].
  destruct (H E) as [-> | (y & c & -> & Hy)]; [|now exists y, c].
  exists s, []. split; [reflexivity | apply after_refl].
Qed.

Lemma mem_lt ch : mem ch "<" = Ascii.eqb ch "<".
Proof. simpl. apply orb_false_r. Qed.

(** At every character, the master pattern matches and reads it. *)
Lemma XML_SPE_reads ch s :
  exists y c,
    match_at RegexCollector.XML_SPE false (String ch s) = Some (y, c)
    /\ after s y.
Proof.
  unfold match_at. cbn [andb]. change (fun s' c => Some (s', c)) with accept.
  unfold RegexCollector.XML_SPE. cbn [run].
  unfold RegexCollector.TextSE, none_of.
  destruct (Ascii.eqb ch "<") eqn:E.
  - apply Ascii.eqb_eq in E. subst ch.
    rewrite run_plus_other by reflexivity.
    unfold RegexCollector.MarkupSPE. apply run_markup.
  - destruct (run_plus_class (fun c => negb (mem c "<")) ch s)
      as (y & c & -> & Hy).
    + now rewrite mem_lt, E.
    + now exists y, c.
Qed.

Lemma XML_SPE_end : match_at RegexCollector.XML_SPE false "" = None.
Proof. reflexivity. Qed.

Lemma after_shorter ch s y :
  after s y -> (String.length y =? String.length (String ch s))%nat = false.
Proof.
  intros H. apply after_length in H. apply Nat.eqb_neq. simpl. lia.
Qed.

(** The scan of the master pattern loses nothing. *)
Lemma scan_XML_SPE fuel :
  forall s, String.length s < fuel ->
    PyStr.join (map fst (scan fuel RegexCollector.XML_SPE false s)) = s.
Proof.
  induction fuel as [|fuel IH]; intros s Hs; [lia|].
  destruct s as [|ch s].
  - reflexivity.
  - cbn [scan search].
    destruct (XML_SPE_reads ch s) as (y & c & -> & Hy).
    rewrite (after_shorter ch s y Hy). cbn [map fst PyStr.join fold_right].
    fold (PyStr.join (map fst (scan fuel RegexCollector.XML_SPE false y))).
    rewrite IH.
    + apply taken_after. now apply after_cons.
    + apply after_length in Hy. simpl in Hs. lia.
Qed.

Lemma findall_XML_SPE s :
  PyStr.join (findall RegexCollector.XML_SPE s) = s.
Proof. unfold findall, matches. apply scan_XML_SPE. lia. Qed.

End Matcher.

(** ** Escaping *)

(** C1.  Decoding what the serializer encoded does not give the string
    back: on the string made of the one character [<], the pass of
    [_encode_string] writes [&lt;] and then, the ampersand coming last in
    the table, rewrites the ampersand it has just written; the decoding
    pass ends on [&lt;], not on [<]. *)
Theorem escape_round_trip_lost :
  _encode_string "<" = "&amp;lt;"
  /\ _decode_string (Some (_encode_string "<")) = Some "&lt;"
  /\ _decode_string (Some (_encode_string "<")) <> Some "<".
Proof. split; [reflexivity|]. split; [reflexivity | discriminate]. Qed.

(** The same happens to each of the four characters that come before the
    ampersand in the table; a string of ampersands alone survives. *)
Example escape_round_trip_quote :
  _decode_string (Some (_encode_string DQ)) = Some "&quot;".
Proof. reflexivity. Qed.

Example escape_round_trip_ampersands :
  _decode_string (Some (_encode_string "&&")) = Some "&&".
Proof. reflexivity. Qed.

(** ** The lexer *)

(** C2.  For every input, the tokens found by the master pattern,
    joined in order, are the input.  The constructor checks it: given a
    token list that does not join to the text, it raises
    [AssertionError], no parser is made and [parse_xml] is never
    reached; given one that joins to the text, it keeps that very list.
    [_assert_lex] passes exactly when the tokens join to the text, the
    constructor runs it on the tokens [findall] has just made, and every
    parse goes through it. *)
Theorem lexer_lossless :
  (forall xmlstring,
      PyStr.join (Re.findall RegexCollector.XML_SPE xmlstring) = xmlstring)
  /\ (forall toks xmlstring r h,
         PyStr.join toks <> xmlstring ->
         XmlParser_of_tokens toks xmlstring r h = Raise AssertionError
         /\ parse_of_tokens toks xmlstring r h = Raise AssertionError)
  /\ (forall toks xmlstring r h,
         PyStr.join toks = xmlstring ->
         exists p, XmlParser_of_tokens toks xmlstring r h = Ok p
                   /\ tokens p = toks
                   /\ xml_string p = xmlstring
                   /\ parse_of_tokens toks xmlstring r h
                      = match parse_xml p with
                        | Ok (_, p') => Ok p'
                        | Raise e => Raise e
                        end)
  /\ (forall xmlstring r h,
         XmlParser_init xmlstring r h
         = XmlParser_of_tokens (Re.findall RegexCollector.XML_SPE xmlstring)
                               xmlstring r h
         /\ parse xmlstring r h
            = parse_of_tokens (Re.findall RegexCollector.XML_SPE xmlstring)
                              xmlstring r h)
  /\ (forall tokens xmlstring,
         _assert_lex tokens xmlstring
         = if String.eqb (PyStr.join tokens) xmlstring
           then Ok tt else Raise AssertionError)
  /\ (forall xmlstring r h,
         parse xmlstring r h
         = match _assert_lex (Re.findall RegexCollector.XML_SPE xmlstring)
                             xmlstring with
           | Raise e => Raise e
           | Ok _ =>
               match XmlParser_init xmlstring r h with
               | Ok p => match parse_xml p with
                         | Ok (_, p') => Ok p'
                         | Raise e => Raise e
                         end
               | Raise e => Raise e
               end
           end)
  /\ (forall xmlstring r h,
         exists p, XmlParser_init xmlstring r h = Ok p
                   /\ tokens p = Re.findall RegexCollector.XML_SPE xmlstring
                   /\ PyStr.join (tokens p) = xml_string p).
Proof.
  split; [exact findall_XML_SPE|].
  split.
  { intros tokens xmlstring r h Hne.
    unfold parse_of_tokens, XmlParser_of_tokens, _assert_lex.
    destruct (String.eqb_spec (PyStr.join tokens) xmlstring) as [E|_];
      [contradiction | split; reflexivity]. }
  split.
  { intros tokens xmlstring r h E.
    unfold parse_of_tokens, XmlParser_of_tokens, _assert_lex.
    rewrite E, String.eqb_refl.
    eexists. split; [reflexivity|]. split; [reflexivity|].
    split; [reflexivity|].
    cbv beta iota. now destruct (parse_xml _) as [[? ?]|]. }
  split; [intros; split; reflexivity|].
  split; [reflexivity|].
  split.
  - intros xmlstring r h. unfold parse, XmlParser_init, XmlParser_of_tokens.
    now destruct (_assert_lex _ _).
  - intros xmlstring r h.
    unfold XmlParser_init, XmlParser_of_tokens, _assert_lex.
    rewrite findall_XML_SPE, String.eqb_refl.
    eexists. split; [reflexivity|]. split; [reflexivity|].
    apply findall_XML_SPE.
Qed.

(** A list of one token [a] for the text [b]: the constructor raises and
    nothing is parsed. *)
Lemma lexer_lossless_witness :
  PyStr.join ["a"] <> "b"
  /\ XmlParser_of_tokens ["a"] "b" None [] = Raise AssertionError
  /\ parse_of_tokens ["a"] "b" None [] = Raise AssertionError.
Proof.
  assert (H : PyStr.join ["a"] <> "b") by (vm_compute; discriminate).
  split; [exact H|].
  exact (proj1 (proj2 lexer_lossless) ["a"] "b" None [] H).
Defined.

(** ** Round trips *)

(** C3, as the claim has it: the text written for the parsed tree is not
    the one without a space before the closing bracket of [r], be it the
    text of the root node or that of the whole document. *)
Lemma round_trip_without_space_refuted :
  exists p, parse doc_round_trip None [] = Ok p
            /\ render_root p <> Ok round_trip_without_space
            /\ to_xml (heap p) (xml_root p) <> Ok round_trip_without_space.
Proof.
  eexists. split; [vm_compute; reflexivity|].
  split; vm_compute; discriminate.
Qed.

(** C3, amended.  Parsing the document gives the root [r] with the
    attribute [a] at 1 and the one child [c] whose value is the decoded
    text; the root node is written back with one tab per level, a line
    feed after the opening tag and before the closing one, and a space
    after the attribute. *)
Theorem round_trip :
  exists p, parse doc_round_trip None [] = Ok p
            /\ root_tree_of p
               = Some (Node "r" [("a", "1")] None
                            [Node "c" [] (Some "text & more") []])
            /\ render_root p = Ok round_trip_with_space.
Proof.
eexists. split; [vm_compute; reflexivity|].
split; vm_compute; reflexivity.
Qed.

(** C4, as the claim has it: the text written for the parsed document
    does not begin with the declaration line that has a single space
    before the closing mark. *)
Lemma declaration_one_space_refuted :
  exists p out, parse doc_declaration None [] = Ok p
                /\ to_xml (heap p) (xml_root p) = Ok out
                /\ PyStr.startswith out declaration_line_one_space = false.
Proof.
do 2 eexists. split; [vm_compute; reflexivity|].
split; vm_compute; reflexivity.
Qed.

(** What the declaration handler does, for any token: each of the three
    keys that the token carries is stored, the others stay, and nothing
    else of the parser changes. *)
Lemma _process_xmldeclaration_sets token p :
  let attributes := _get_attributes token in
  exists p', _process_xmldeclaration token p = Ok (tt, p')
    /\ version (xml_root p')
       = default (version (xml_root p)) (dict_get "version" attributes)
    /\ encoding (xml_root p')
       = match dict_get "encoding" attributes with
         | Some v => Some v
         | None => encoding (xml_root p)
         end
    /\ standalone (xml_root p')
       = match dict_get "standalone" attributes with
         | Some v => Some v
         | None => standalone (xml_root p)
         end
    /\ rootnode (xml_root p') = rootnode (xml_root p)
    /\ heap p' = heap p
    /\ parent_nodes p' = parent_nodes p
    /\ current_node p' = current_node p.
Proof.
  intros attributes. unfold _process_xmldeclaration.
  fold attributes. unfold bind, modify, ret.
  destruct (dict_get "version" attributes),
           (dict_get "encoding" attributes),
           (dict_get "standalone" attributes);
    eexists; (split; [reflexivity|]); repeat split.
Qed.

Lemma serialize_xml_tree h r a t :
  rootnode r = Some a -> tree_of h a = Some t ->
  serialize_xml h r = Ok (declaration_line r ++ _to_xml t 0).
Proof.
  intros Hr Ht. unfold serialize_xml, declaration_line. now rewrite Hr, Ht.
Qed.

(** C4, amended.  The declaration handler stores the keys it finds and
    leaves the others; on the declaration with version 1.1 and encoding
    utf-8 it stores both, and so does the parse of that declaration
    followed by a root element.  A document with these two values, and
    no standalone value, is written as the declaration line, which has
    two spaces before its closing mark (the one after the last attribute
    and the one of the line), followed by the text of the root node. *)
Theorem declaration_round_trip :
  forall token p h r a t,
    version r = "1.1" -> encoding r = Some "utf-8" -> standalone r = None ->
    rootnode r = Some a -> tree_of h a = Some t ->
    (exists p', _process_xmldeclaration token p = Ok (tt, p')
       /\ version (xml_root p')
          = default (version (xml_root p))
                    (dict_get "version" (_get_attributes token))
       /\ encoding (xml_root p')
          = match dict_get "encoding" (_get_attributes token) with
            | Some v => Some v
            | None => encoding (xml_root p)
            end
       /\ standalone (xml_root p')
          = match dict_get "standalone" (_get_attributes token) with
            | Some v => Some v
            | None => standalone (xml_root p)
            end)
    /\ (exists p', _process_xmldeclaration declaration_token p = Ok (tt, p')
          /\ version (xml_root p') = "1.1"
          /\ encoding (xml_root p') = Some "utf-8"
          /\ standalone (xml_root p') = standalone (xml_root p))
    /\ (exists q, parse doc_declaration None [] = Ok q
          /\ version (xml_root q) = "1.1"
          /\ encoding (xml_root q) = Some "utf-8"
          /\ standalone (xml_root q) = None)
    /\ to_xml h r = Ok (declaration_line_two_spaces ++ _to_xml t 0).
Proof.
  intros token p h r a t Hv He Hs Hr Ht.
  split.
  { destruct (_process_xmldeclaration_sets token p)
      as (p' & E & H1 & H2 & H3 & _).
    exists p'. now repeat split. }
  split.
  { destruct (_process_xmldeclaration_sets declaration_token p)
      as (p' & E & H1 & H2 & H3 & _).
    exists p'. split; [exact E|]. split; [exact H1|]. split; [exact H2|].
    exact H3. }
  split.
  { eexists. split; [vm_compute; reflexivity|].
  split; [vm_compute; reflexivity|].
  split; vm_compute; reflexivity. }
  unfold to_xml. rewrite (serialize_xml_tree h r a t Hr Ht).
  unfold declaration_line, declaration_attributes.
  now rewrite Hv, He, Hs.
Qed.

Lemma declaration_round_trip_witness :
  exists p t,
    parse doc_declaration None [] = Ok p
    /\ root_tree_of p = Some t
    /\ to_xml (heap p) (xml_root p)
       = Ok (declaration_line_two_spaces ++ _to_xml t 0).
Proof.
  eexists. eexists.
  split; [vm_compute; reflexivity|].
  split; [vm_compute; reflexivity|].
  eapply (declaration_round_trip
            declaration_token
            {| xml_string := ""; tokens := []; tokens_processed := [];
               xml_root := XmlRoot_default; current_node := None;
               parent_nodes := []; heap := []; stdout := [] |}
            _ _ 0 _);
    vm_compute; reflexivity.
Defined.

(** ** The version of a document *)

(** C8.  The constructor forces a version, but the declaration handler
    stores whatever the declaration carries: after the parse of a
    document whose declaration has an empty version, the version of the
    document is the empty string. *)
Theorem version_emptied_by_parse :
  version (XmlRoot_init None (Some "utf-8") None None) = "1.0"
  /\ version (XmlRoot_init (Some "") (Some "utf-8") None None) = "1.0"
  /\ exists p, parse doc_empty_version None [] = Ok p
               /\ version (xml_root p) = "".
Proof.
  split; [reflexivity|]. split; [reflexivity|].
  eexists. split; vm_compute; reflexivity.
Qed.

(** ** Closing tags *)

Lemma _get_position_ok p : exists pos, _get_position p = Ok (pos, p).
Proof.
  unfold _get_position, bind, get, ret.
  destruct (last _); eexists; reflexivity.
Qed.

Lemma _get_tag_found token t p :
  head (Re.findall RegexCollector.Name token) = Some t ->
  _get_tag token p = Ok (t, p).
Proof.
  unfold _get_tag. destruct (Re.findall _ token); [discriminate|].
  now intros [= ->].
Qed.

Lemma _get_tag_ok token t p p' :
  _get_tag token p = Ok (t, p') ->
  p' = p /\ head (Re.findall RegexCollector.Name token) = Some t.
Proof.
  unfold _get_tag. destruct (Re.findall _ token) as [|t' l].
  - unfold bind. destruct (_get_position_ok p) as [pos ->]. discriminate.
  - now intros [= -> ->].
Qed.

Lemma process_tokens_app l1 l2 p :
  process_tokens (l1 ++ l2) p
  = match process_tokens l1 p with
    | Ok (_, p') => process_tokens l2 p'
    | Raise e => Raise e
    end.
Proof.
  revert p. induction l1 as [|token l1 IH]; intros p; [reflexivity|].
  cbn [app process_tokens]. unfold bind.
  destruct (process_token token p) as [[[] p']|e]; [apply IH | reflexivity].
Qed.

Lemma startswith_close token :
  PyStr.startswith token "</" = true -> exists rest, token = "</" ++ rest.
Proof.
  unfold PyStr.startswith.
  destruct token as [|a [|b rest]]; cbn [String.prefix]; try discriminate.
  - destruct (ascii_dec "<" a); discriminate.
  - destruct (ascii_dec "<" a) as [<-|]; [|discriminate].
    destruct (ascii_dec "/" b) as [<-|]; [|discriminate].
    now exists rest.
Qed.

(** A token that begins a closing tag goes to [_process_endnode]. *)
Lemma process_token_close rest p :
  process_token ("</" ++ rest) p
  = bind (_process_endnode ("</" ++ rest))
         (fun _ => modify (fun p =>
            with_tokens_processed
              (tokens_processed p ++ [("</" ++ rest)%string])%list p)) p.
Proof. destruct rest; reflexivity. Qed.

Lemma _process_endnode_mismatch token t p :
  head (Re.findall RegexCollector.Name token) = Some t ->
  (current_node p = None
   \/ exists cur o, current_node p = Some cur
                    /\ heap p !! cur = Some o /\ tag o <> t) ->
  exists e, _process_endnode token p = Raise e /\ MismatchedCloseTagError t e.
Proof.
  intros Ht Hopen. unfold _process_endnode, bind at 1.
  rewrite (_get_tag_found token t p Ht). unfold bind at 1, get.
  destruct Hopen as [-> | (cur & o & -> & -> & Hne)].
  - unfold bind. destruct (_get_position_ok p) as [pos ->].
    eexists. split; [reflexivity|]. reflexivity.
  - apply String.eqb_neq in Hne. rewrite Hne. cbn [negb].
    unfold bind. destruct (_get_position_ok p) as [pos ->].
    eexists. split; [reflexivity|]. split; [reflexivity|].
    now apply String.eqb_neq.
Qed.

(** C5.  When the tokens of a text reach a closing tag, from which a
    tag name is read, while no node is open, or while the open node has
    another tag, the parse raises the exception for it; the exception
    names the closing tag. *)
Theorem mismatched_close_fails :
  forall xmlstring r h p0 pre token post p t,
    XmlParser_init xmlstring r h = Ok p0 ->
    tokens p0 = (pre ++ token :: post)%list ->
    process_tokens pre p0 = Ok (tt, p) ->
    PyStr.startswith token "</" = true ->
    head (Re.findall RegexCollector.Name token) = Some t ->
    (current_node p = None
     \/ exists cur o, current_node p = Some cur
                      /\ heap p !! cur = Some o /\ tag o <> t) ->
    exists e, parse xmlstring r h = Raise e /\ MismatchedCloseTagError t e.
Proof.
  intros xmlstring r h p0 pre token post p t Hinit Htok Hpre Hclose Ht Hopen.
  destruct (_process_endnode_mismatch token t p Ht Hopen) as (e & He & Hm).
  exists e. split; [|exact Hm].
  unfold parse. rewrite Hinit. unfold parse_xml, bind at 1, get.
  unfold bind at 1. rewrite Htok, process_tokens_app, Hpre.
  cbn [process_tokens]. unfold bind at 1.
  destruct (startswith_close token Hclose) as [rest ->].
  rewrite process_token_close. unfold bind at 1. now rewrite He.
Qed.

Lemma mismatched_close_fails_witness :
  exists e, parse "<a><b></a>" None [] = Raise e
            /\ MismatchedCloseTagError "a" e.
Proof.
  eapply (mismatched_close_fails "<a><b></a>" None [] _
            ["<a>"; "<b>"] "</a>" [] _ "a").
  - vm_compute; reflexivity.
  - reflexivity.
  - vm_compute; reflexivity.
  - reflexivity.
  - reflexivity.
  - right. exists 1, (mkXmlNode "b" [] None []).
    split; [reflexivity|]. split; [reflexivity|]. discriminate.
Defined.

(** The two cases on the smallest inputs, with the exception as it is
    raised. *)
Example mismatched_close_example :
  parse "<a><b></a>" None []
  = Raise (XmlException (ClosingAndOpenDoNotMatch "a" "b" 1 6)).
Proof. reflexivity. Qed.

Example close_without_open_example :
  parse "</a>" None []
  = Raise (XmlException (ClosingNodeNoOpenNode "a" 0 0)).
Proof. reflexivity. Qed.

(** ** Empty nodes *)

Lemma tree_of_leaf h a o :
  h !! a = Some o -> nodes o = [] ->
  tree_of h a = Some (Node (tag o) (attributes o) (value o) []).
Proof.
  intros Ha Hn. unfold tree_of.
  destruct (length h) as [|n] eqn:El.
  - apply lookup_lt_Some in Ha. lia.
  - cbn [snapshot]. rewrite Ha, Hn. reflexivity.
Qed.

(** C9.  A node without attributes and without a value whose only child
    is empty is written as the empty string, at any depth; and a
    document whose root node has one attribute, no children and no value
    is written as its declaration line followed by the root in the
    self-closing form: the tag, the attribute with its trailing space,
    and the closing mark. *)
Theorem empty_pruning :
  forall tag_ val child depth h r a o k v,
    PyStr.truthy_opt val = false ->
    is_empty child = true ->
    rootnode r = Some a ->
    h !! a = Some o ->
    attributes o = [(k, v)] -> nodes o = [] ->
    PyStr.truthy_opt (value o) = false ->
    _to_xml (Node tag_ [] val [child]) depth = ""
    /\ to_xml h r
       = Ok (declaration_line r
             ++ ("<" ++ tag o ++ " "
                  ++ (k ++ "=" ++ DQ ++ PyStr.replace v DQ "&quot;" ++ DQ ++ " "))
             ++ "/>").
Proof.
  intros tag_ val child depth h r a o k v Hval Hchild Hr Ha Hattr Hnodes Hv.
  split.
  - cbn [_to_xml is_empty nonempty forallb negb].
    now rewrite Hval, Hchild.
  - unfold to_xml.
    rewrite (serialize_xml_tree h r a _ Hr (tree_of_leaf h a o Ha Hnodes)).
    rewrite Hattr. cbn [_to_xml is_empty nonempty nodes_are_empty forallb negb].
    rewrite Hv. rewrite orb_true_r. reflexivity.
Qed.

Lemma empty_pruning_witness :
  _to_xml (Node "a" [] None [Node "b" [] None []]) 0 = ""
  /\ to_xml [mkXmlNode "r" [("a", "1")] None []]
            (mkXmlRoot "1.0" (Some "utf-8") None (Some 0))
     = Ok ("<?xml version=" ++ DQ ++ "1.0" ++ DQ ++ " encoding=" ++ DQ
             ++ "utf-8" ++ DQ ++ "  ?>" ++ NL
             ++ "<r a=" ++ DQ ++ "1" ++ DQ ++ " />").
Proof.
  apply (empty_pruning "a" None (Node "b" [] None []) 0
           [mkXmlNode "r" [("a", "1")] None []]
           (mkXmlRoot "1.0" (Some "utf-8") None (Some 0))
           0 (mkXmlNode "r" [("a", "1")] None []) "a" "1");
    reflexivity.
Defined.

(** ** Lookups by path *)

(** The node found for a tag is a direct child. *)
Lemma get_first_node_tag_child h self t n :
  get_first_node_tag h self t = Some n -> child_of h self n.
Proof.
  unfold get_first_node_tag, get_all_nodes.
  destruct (h !! self) as [o|] eqn:Eo; [|discriminate].
  intros H. exists o. split; [exact Eo|].
  destruct (List.filter _ (nodes o)) as [|x l] eqn:E; [discriminate|].
  injection H as ->.
  assert (Hin : In n (List.filter
            (fun a => match h !! a with
                      | Some m => String.eqb (PyStr.lower (tag m)) (PyStr.lower t)
                      | None => false
                      end) (nodes o))) by (rewrite E; now left).
  now apply filter_In in Hin.
Qed.

(** A path of two tags or more: the first tag is taken off the list and
    looked up among the children; the rest of the list is resolved from
    the node found, and the lookup ends without a result as soon as a
    tag finds nothing. *)
Lemma get_first_node_path_step h self t t' rest :
  get_first_node_path h self (t :: t' :: rest)
  = match get_first_node_tag h self t with
    | None => Ok (None, t' :: rest)
    | Some subnode => get_first_node_path h subnode (t' :: rest)
    end.
Proof. reflexivity. Qed.

(** A path that is not empty never raises, and what is left of the list
    is an end of it. *)
Lemma get_first_node_path_left h l :
  l <> [] ->
  forall self, exists r l',
    get_first_node_path h self l = Ok (r, l')
    /\ l' `suffix_of` l /\ l' <> [].
Proof.
  induction l as [|t l IH]; [congruence|]. intros _ self.
  destruct l as [|t' rest].
  - exists (get_first_node_tag h self t), [t]. now repeat split.
  - rewrite get_first_node_path_step.
    destruct (get_first_node_tag h self t) as [sub|].
    + destruct (IH ltac:(discriminate) sub) as (r & l' & E & Hs & Hne).
      exists r, l'. split; [exact E|]. split; [|exact Hne].
      now apply suffix_cons_r.
    + exists None, (t' :: rest). split; [reflexivity|]. split; [|discriminate].
      now apply suffix_cons_r.
Qed.

(** C7.  When [a] is the first node found for its tag under a node,
    [b] under [a] and [c] under [b], [c] holding the value x, the lookup
    of the path a, b, c from that node gives [c], each tag being looked
    up among the children of the node found before; and when no node is
    found for zzz under [a], the lookup of the path a, zzz gives no node
    and raises nothing. *)
Theorem path_lookup :
  forall h self a b c o,
    get_first_node_tag h self "a" = Some a ->
    get_first_node_tag h a "b" = Some b ->
    get_first_node_tag h b "c" = Some c ->
    h !! c = Some o -> value o = Some "x" ->
    get_first_node_tag h a "zzz" = None ->
    (exists left, get_first_node h self (Path ["a"; "b"; "c"])
                  = Ok (Some c, left))
    /\ child_of h self a /\ child_of h a b /\ child_of h b c
    /\ (exists left, get_first_node h self (Path ["a"; "zzz"])
                     = Ok (None, left)).
Proof.
  intros h self a b c o Ha Hb Hc Ho Hx Hz.
  split.
  { exists (Path ["c"]). unfold get_first_node.
    rewrite get_first_node_path_step, Ha, get_first_node_path_step, Hb.
    cbn [get_first_node_path].
    now rewrite Hc. }
  split; [eapply get_first_node_tag_child, Ha|].
  split; [eapply get_first_node_tag_child, Hb|].
  split; [eapply get_first_node_tag_child, Hc|].
  exists (Path ["zzz"]). unfold get_first_node.
  rewrite get_first_node_path_step, Ha. cbn [get_first_node_path].
  now rewrite Hz.
Qed.

Lemma path_lookup_witness :
  (exists left, get_first_node chain_store 0 (Path ["a"; "b"; "c"])
                = Ok (Some 3, left))
  /\ chain_store !! 3 = Some (mkXmlNode "c" [] (Some "x") [])
  /\ (exists left, get_first_node chain_store 0 (Path ["a"; "zzz"])
                   = Ok (None, left)).
Proof.
  destruct (path_lookup chain_store 0 1 2 3 (mkXmlNode "c" [] (Some "x") [])
              eq_refl eq_refl eq_refl eq_refl eq_refl eq_refl)
    as (H1 & _ & _ & _ & H2).
  split; [exact H1|]. split; [reflexivity | exact H2].
Defined.

(** ** The list given as a path *)

Lemma length_removelast {A} (l : list A) :
  length (removelast l) = length l - 1.
Proof.
  induction l as [|x [|y l] IH]; [reflexivity | reflexivity |].
  change (removelast (x :: y :: l)) with (x :: removelast (y :: l)).
  cbn [length] in *. rewrite IH. lia.
Qed.

(** C10.  With a list of two tags or more, [get_first_node] takes the
    first tag off the list and goes on from the node found for it with
    the tail, or stops there when none is found; so that what the caller
    finds in its list afterwards is an end of the tail, never the empty
    list, and the tail itself when there were two tags.
    [_insert_helper], hence [insert_before] and [insert_after], takes the
    last tag off and looks the parent up with the list so shortened; what
    is left is what that lookup leaves: an end of the list without its
    last tag, never the empty list, and the list without its last tag
    when there were two.  In both cases the list is shorter than it
    was. *)
Theorem path_argument_mutated :
  forall h self l node add,
    1 < length l ->
    (exists r l', get_first_node h self (Path l) = Ok (r, Path l')
                  /\ l' `suffix_of` tail l
                  /\ length l' < length l /\ l' <> l
                  /\ l' <> []
                  /\ (length l = 2 -> l' = tail l))
    /\ (exists tmp_tag, head l = Some tmp_tag
          /\ get_first_node h self (Path l)
             = match get_first_node_tag h self tmp_tag with
               | None => Ok (None, Path (tail l))
               | Some subnode => get_first_node h subnode (Path (tail l))
               end)
    /\ (exists h' l', _insert_helper h self (Path l) node add = Ok (h', Path l')
                      /\ l' `suffix_of` removelast l
                      /\ length l' < length l /\ l' <> l
                      /\ l' <> []
                      /\ (length l = 2 -> l' = removelast l)
                      /\ exists parentnode,
                           get_first_node h self (Path (removelast l))
                           = Ok (parentnode, Path l'))
    /\ insert_before h self (Path l) node = _insert_helper h self (Path l) node 0
    /\ insert_after h self (Path l) node = _insert_helper h self (Path l) node 1.
Proof.
  intros h self l node add Hl.
  assert (Hshort : forall (l' k : list string),
             l' `suffix_of` k -> length k < length l ->
             length l' < length l /\ l' <> l).
  { intros l' k Hs Hk. apply suffix_length in Hs.
    split; [lia|]. intros ->. lia. }
  split; [|split; [|split; [|split; reflexivity]]].
  - destruct l as [|t [|t' rest]]; cbn [length] in Hl; try lia.
    unfold get_first_node. rewrite get_first_node_path_step.
    destruct (get_first_node_tag h self t) as [sub|].
    + destruct (get_first_node_path_left h (t' :: rest) ltac:(discriminate) sub)
        as (r & l' & E & Hs & Hne).
      exists r, l'. rewrite E. split; [reflexivity|]. split; [exact Hs|].
      destruct (Hshort l' (t' :: rest) Hs) as [Hlt Hneq]; [cbn [length]; lia|].
      split; [exact Hlt|]. split; [exact Hneq|]. split; [exact Hne|].
      intros H2. destruct rest; [|cbn [length] in H2; lia].
      cbn in E. now injection E as _ <-.
    + exists None, (t' :: rest). split; [reflexivity|]. split; [reflexivity|].
      destruct (Hshort (t' :: rest) (t' :: rest)) as [Hlt Hneq];
        [reflexivity | cbn [length]; lia |].
      split; [exact Hlt|]. split; [exact Hneq|]. split; [discriminate|].
      reflexivity.
  - destruct l as [|t [|t' rest]]; cbn [length] in Hl; try lia.
    exists t. split; [reflexivity|].
    unfold get_first_node. rewrite get_first_node_path_step.
    cbn [tail]. now destruct (get_first_node_tag h self t).
  - assert (Hr : removelast l <> []).
    { intros E. pose proof (length_removelast l) as Hlen.
      rewrite E in Hlen. cbn [length] in Hlen. lia. }
    destruct (get_first_node_path_left h (removelast l) Hr self)
      as (r & l' & E & Hs & Hne).
    assert (Hk : length (removelast l) < length l)
      by (rewrite length_removelast; lia).
    assert (H2 : length l = 2 -> l' = removelast l).
    { intros H2. destruct l as [|t [|t' [|t'' rest]]];
        cbn [length] in H2; try lia.
      cbn in E. now injection E as _ <-. }
    assert (Hp : exists parentnode,
               get_first_node h self (Path (removelast l))
               = Ok (parentnode, Path l')).
    { exists r. unfold get_first_node. now rewrite E. }
    destruct (Hshort l' _ Hs Hk) as [Hlt Hneq].
    destruct l as [|t [|t' rest]]; cbn [length] in Hl; try lia.
    unfold _insert_helper.
    destruct (last (t :: t' :: rest)) as [index_tag|] eqn:Elast.
    + rewrite E.
      destruct r as [parent|].
      * destruct (get_index h parent (Tag index_tag)) as [index|];
          eexists; exists l'; (split; [reflexivity|]);
          repeat (split; [assumption|]); assumption.
      * eexists; exists l'; (split; [reflexivity|]);
          repeat (split; [assumption|]); assumption.
    + now rewrite last_cons_cons, last_None in Elast.
Qed.

(** On the chain a, b, c the lookup leaves the last tag, the insertion
    the last but one. *)
Lemma path_argument_mutated_witness :
  (exists r, get_first_node chain_store 0 (Path ["a"; "b"; "c"])
             = Ok (r, Path ["c"]))
  /\ (exists h', _insert_helper chain_store 0 (Path ["a"; "b"; "c"]) 0 1
                 = Ok (h', Path ["b"]))
  /\ (exists r, get_first_node chain_store 0 (Path ["a"; "b"])
                = Ok (r, Path ["b"]))
  /\ (exists h', _insert_helper chain_store 0 (Path ["a"; "b"]) 0 1
                 = Ok (h', Path ["a"])).
Proof.
  destruct (path_argument_mutated chain_store 0 ["a"; "b"; "c"] 0 1)
    as ((r & l1 & E1 & _) & _ & (h' & l2 & E2 & _) & _);
    [cbn [length]; lia|].
  destruct (path_argument_mutated chain_store 0 ["a"; "b"] 0 1)
    as ((r' & l3 & E3 & _ & _ & _ & _ & T3) & _
        & (h'' & l4 & E4 & _ & _ & _ & _ & T4 & _) & _);
    [cbn [length]; lia|].
  rewrite (T3 eq_refl) in E3. rewrite (T4 eq_refl) in E4.
  assert (L1 : l1 = ["c"]) by (vm_compute in E1; congruence).
  assert (L2 : l2 = ["b"]) by (vm_compute in E2; congruence).
  subst l1 l2.
  split; [now exists r|]. split; [now exists h'|].
  split; [now exists r' | now exists h''].
Defined.

Example get_first_node_leaves :
  get_first_node chain_store 0 (Path ["a"; "b"; "c"]) = Ok (Some 3, Path ["c"]).
Proof. reflexivity. Qed.

Example insert_after_leaves :
  exists h', insert_after chain_store 0 (Path ["a"; "b"; "c"]) 0
             = Ok (h', Path ["b"]).
Proof. eexists. reflexivity. Qed.

(** ** Opening and closing nodes *)

Lemma _process_startnode_ok token p p1 :
  _process_startnode token p = Ok (tt, p1) ->
  exists t,
    head (Re.findall RegexCollector.Name token) = Some t
    /\ parent_nodes p1 = (parent_nodes p ++ [length (heap p)])%list
    /\ current_node p1 = Some (length (heap p))
    /\ heap p1
       = let h1 := alter (set_attributes (_get_attributes token))
                         (length (heap p))
                         (heap p ++ [XmlNode_init t])%list in
         match last (parent_nodes p) with
         | Some top => alter (append_node (length (heap p))) top h1
         | None => h1
         end.
Proof.
  unfold _process_startnode, bind at 1.
  destruct (_get_tag token p) as [[t p']|e] eqn:E; [|discriminate].
  apply _get_tag_ok in E as [-> Ht].
  unfold bind, get, modify.
  destruct (last (parent_nodes p)) eqn:El; intros [= <-]; exists t.
  all: split; [exact Ht|].
  all: split; [reflexivity|].
  all: split; reflexivity.
Qed.

Lemma _process_endnode_ok token p p2 :
  _process_endnode token p = Ok (tt, p2) ->
  heap p2 = heap p
  /\ parent_nodes p2 = removelast (parent_nodes p)
  /\ current_node p2 = last (removelast (parent_nodes p)).
Proof.
  unfold _process_endnode, bind at 1.
  destruct (_get_tag token p) as [[t p']|e] eqn:E; [|discriminate].
  apply _get_tag_ok in E as [-> Ht].
  unfold bind at 1, get.
  destruct (current_node p) as [cur|].
  - destruct (heap p !! cur) as [o|]; [|discriminate].
    destruct (negb _).
    + unfold bind. destruct (_get_position_ok p) as [pos ->]. discriminate.
    + destruct (parent_nodes p) as [|x l] eqn:El; [discriminate|].
      unfold bind, modify. intros [= <-]. now repeat split.
  - unfold bind. destruct (_get_position_ok p) as [pos ->]. discriminate.
Qed.

(** The object made for a start tag, right after the tag is handled. *)
Lemma _process_startnode_new token p p1 :
  _process_startnode token p = Ok (tt, p1) ->
  exists t o,
    head (Re.findall RegexCollector.Name token) = Some t
    /\ heap p1 !! length (heap p) = Some o /\ tag o = t
    /\ (Forall (fun b => b < length (heap p)) (parent_nodes p) ->
        o = mkXmlNode t (_get_attributes token) None []).
Proof.
  intros H. apply _process_startnode_ok in H as (t & Ht & _ & _ & Hh).
  cbv zeta in Hh.
  assert (H1 : alter (set_attributes (_get_attributes token)) (length (heap p))
                     (heap p ++ [XmlNode_init t])%list !! length (heap p)
               = Some (mkXmlNode t (_get_attributes token) None [])).
  { rewrite list_lookup_alter_eq, list_lookup_middle by reflexivity.
    reflexivity. }
  destruct (last (parent_nodes p)) as [top|] eqn:El.
  - destruct (decide (top = length (heap p))) as [->|Hne].
    + eexists t, _. split; [exact Ht|]. rewrite Hh, list_lookup_alter_eq, H1.
      split; [reflexivity|]. split; [reflexivity|].
      intros Hall. apply last_Some_elem_of in El.
      rewrite Forall_forall in Hall. apply Hall in El. lia.
    + eexists t, _. split; [exact Ht|].
      rewrite Hh, list_lookup_alter_ne, H1 by exact Hne.
      now repeat split.
  - eexists t, _. split; [exact Ht|]. rewrite Hh, H1. now repeat split.
Qed.

(** Push, then pop: the end-tag handling that follows the start-tag
    handling of the same token succeeds and leaves the stack and the
    current node as they were before the token. *)
Lemma _process_endnode_after_start token p p1 :
  _process_startnode token p = Ok (tt, p1) ->
  exists p2, _process_endnode token p1 = Ok (tt, p2)
             /\ heap p2 = heap p1
             /\ parent_nodes p2 = parent_nodes p
             /\ current_node p2 = last (parent_nodes p).
Proof.
  intros H.
  destruct (_process_startnode_new token p p1 H) as (t & o & Ht & Ho & Htag & _).
  apply _process_startnode_ok in H as (t' & _ & Hs & Hc & _).
  unfold _process_endnode, bind at 1.
  rewrite (_get_tag_found token t p1 Ht). unfold bind at 1, get.
  rewrite Hc, Ho, Htag, String.eqb_refl. cbn [negb]. rewrite Hs.
  destruct (parent_nodes p ++ [length (heap p)])%list eqn:E.
  - now destruct (parent_nodes p).
  - rewrite <- E, removelast_last. unfold bind, modify.
    eexists. split; [reflexivity|]. now repeat split.
Qed.

(** ** A closed node is left alone *)

Lemma Forall_removelast {A} (P : A -> Prop) (l : list A) :
  Forall P l -> Forall P (removelast l).
Proof.
  induction 1 as [|x l Hx Hl IH]; [constructor|].
  destruct l as [|y l]; [constructor|].
  change (removelast (x :: y :: l)) with (x :: removelast (y :: l)).
  now constructor.
Qed.

Lemma keeps_ret a : keeps a (ret tt).
Proof. intros p p' Hc [= <-]. now split. Qed.

Lemma keeps_bind a (m1 m2 : M unit) :
  keeps a m1 -> keeps a m2 -> keeps a (bind m1 (fun _ => m2)).
Proof.
  intros H1 H2 p p' Hc. unfold bind.
  destruct (m1 p) as [[[] p1]|e] eqn:E1; [|discriminate].
  intros E2. destruct (H1 p p1 Hc E1) as [Hc1 Hh1].
  destruct (H2 p1 p' Hc1 E2) as [Hc2 Hh2].
  split; [exact Hc2 | congruence].
Qed.

Lemma keeps_if a (b : bool) (m1 m2 : M unit) :
  keeps a m1 -> keeps a m2 -> keeps a (if b then m1 else m2).
Proof. now destruct b. Qed.

(** A change of the parser that touches neither the store nor the
    stack. *)
Lemma keeps_modify a (f : XmlParser -> XmlParser) :
  (forall p, heap (f p) = heap p
             /\ parent_nodes (f p) = parent_nodes p
             /\ current_node (f p) = current_node p) ->
  keeps a (modify f).
Proof.
  intros Hf p p' (Hlt & Hall & Hcur) [= <-].
  destruct (Hf p) as (Hh & Hs & Hc).
  unfold closed. rewrite Hh, Hs, Hc. now repeat split.
Qed.

Lemma keeps_print a x y : keeps a (print x y).
Proof. apply keeps_modify. now intros p. Qed.

Lemma keeps_xmldeclaration a token : keeps a (_process_xmldeclaration token).
Proof.
  intros p p' (Hlt & Hall & Hcur) E.
  destruct (_process_xmldeclaration_sets token p)
    as (q & Eq & _ & _ & _ & _ & Hh & Hs & Hc).
  rewrite Eq in E. injection E as <-.
  unfold closed. rewrite Hh, Hs, Hc. now repeat split.
Qed.

Lemma keeps_endnode a token : keeps a (_process_endnode token).
Proof.
  intros p p' (Hlt & Hall & Hcur) E.
  apply _process_endnode_ok in E as (Hh & Hs & Hc).
  unfold closed. rewrite Hh, Hs, Hc.
  split; [|reflexivity]. split; [exact Hlt|].
  split; [now apply Forall_removelast | reflexivity].
Qed.

Lemma keeps_startnode a token : keeps a (_process_startnode token).
Proof.
  intros p p' (Hlt & Hall & Hcur) E.
  apply _process_startnode_ok in E as (t & _ & Hs & Hc & Hh).
  cbv zeta in Hh.
  assert (Hne : length (heap p) <> a) by lia.
  assert (H1 : alter (set_attributes (_get_attributes token)) (length (heap p))
                     (heap p ++ [XmlNode_init t])%list !! a = heap p !! a).
  { rewrite list_lookup_alter_ne by exact Hne. now apply lookup_app_l. }
  assert (Hlen : length (heap p') = S (length (heap p))).
  { rewrite Hh. destruct (last (parent_nodes p));
      rewrite ?length_alter, length_app; cbn [length]; lia. }
  split.
  - unfold closed. rewrite Hs, Hc, last_snoc, Hlen.
    split; [lia|]. split; [|reflexivity].
    apply Forall_app. split; [exact Hall|]. now repeat constructor.
  - rewrite Hh. destruct (last (parent_nodes p)) as [top|] eqn:El; [|exact H1].
    rewrite list_lookup_alter_ne; [exact H1|].
    apply last_Some_elem_of in El. rewrite Forall_forall in Hall.
    now apply Hall.
Qed.

(** Character data goes to the current node, which is on the stack. *)
Lemma keeps_text a token :
  keeps a (bind get (fun p =>
    match current_node p with
    | Some cur =>
        if PyStr.truthy token && negb (PyStr.isspace token)
        then modify (fun p => with_heap
                       (alter (set_value (Some token)) cur (heap p)) p)
        else ret tt
    | None => ret tt
    end)).
Proof.
  intros p p' Hc. unfold bind, get.
  destruct (current_node p) as [cur|] eqn:Ecur; [|now apply keeps_ret].
  destruct (_ && _); [|now apply keeps_ret].
  destruct Hc as (Hlt & Hall & Hcur). intros [= <-].
  assert (Hne : cur <> a).
  { rewrite Ecur in Hcur. symmetry in Hcur.
    apply last_Some_elem_of in Hcur. rewrite Forall_forall in Hall.
    now apply Hall. }
  unfold closed. cbn. rewrite length_alter.
  split; [|now apply list_lookup_alter_ne].
  now repeat split.
Qed.

Lemma keeps_process_token a token : keeps a (process_token token).
Proof.
  unfold process_token. apply keeps_bind.
  - repeat (apply keeps_if;
            try apply keeps_ret;
            try apply keeps_xmldeclaration;
            try apply keeps_endnode;
            try apply keeps_startnode;
            try apply keeps_print).
    + apply keeps_bind; [apply keeps_startnode | apply keeps_endnode].
    + apply keeps_text.
  - apply keeps_modify. now intros p.
Qed.

Lemma keeps_process_tokens a l : keeps a (process_tokens l).
Proof.
  induction l as [|token l IH]; [apply keeps_ret|].
  cbn [process_tokens].
  apply keeps_bind; [apply keeps_process_token | exact IH].
Qed.

(** ** Self-closing tags *)

Lemma prefix_cons ch p x s :
  String.prefix (String ch p) (String x s)
  = if ascii_dec ch x then String.prefix p s else false.
Proof. reflexivity. Qed.

Lemma prefix_append p1 p2 s :
  String.prefix (p1 ++ p2) s = true -> String.prefix p1 s = true.
Proof.
  revert s. induction p1 as [|ch p1 IH]; intros s.
  - now destruct s.
  - destruct s as [|x s]; [discriminate|].
    change (String ch p1 ++ p2) with (String ch (p1 ++ p2)).
    rewrite !prefix_cons.
    destruct (ascii_dec ch x); [apply IH | discriminate].
Qed.

Lemma startswith_longer token p1 p2 :
  PyStr.startswith token p1 = false ->
  PyStr.startswith token (p1 ++ p2) = false.
Proof.
  unfold PyStr.startswith. intros H.
  destruct (String.prefix (p1 ++ p2) token) eqn:E; [|reflexivity].
  apply prefix_append in E. congruence.
Qed.

(** A self-closing token is handled by the start-tag handling followed
    by the end-tag handling of the same token. *)
Lemma process_token_self_closing token p :
  self_closing token = true ->
  process_token token p
  = bind (bind (_process_startnode token) (fun _ => _process_endnode token))
         (fun _ => modify (fun p =>
            with_tokens_processed (tokens_processed p ++ [token])%list p)) p.
Proof.
  unfold self_closing. rewrite !andb_true_iff, !negb_true_iff.
  intros ((((H1 & H2) & H3) & H4) & H5).
  unfold process_token. rewrite H1.
  rewrite (startswith_longer token "<!" "--" H2
           : PyStr.startswith token "<!--" = false).
  rewrite (startswith_longer token "<!" "[CDATA" H2
           : PyStr.startswith token "<![CDATA" = false).
  rewrite (startswith_longer token "<!" "ELEMENT" H2
           : PyStr.startswith token "<!ELEMENT" = false).
  rewrite (startswith_longer token "<!" "ATTLIST" H2
           : PyStr.startswith token "<!ATTLIST" = false).
  rewrite (startswith_longer token "<!" "ENTITY" H2
           : PyStr.startswith token "<!ENTITY" = false).
  rewrite (startswith_longer token "<!" "DOCTYPE" H2
           : PyStr.startswith token "<!DOCTYPE" = false).
  rewrite H2.
  rewrite (startswith_longer token "<?" "xml" H3
           : PyStr.startswith token "<?xml" = false).
  now rewrite H3, H4, H5.
Qed.

(** C6.  The parses of [<a/>] and of [<a></a>] give the same tree: the
    node [a] without attributes, value or children.  A self-closing
    token is handled by the start-tag handling followed by the end-tag
    handling of the same token; when the first succeeds so does the
    second, and the token leaves the stack and the current node as they
    were (push, then pop).  The node made for the token has no children
    then, and whatever tokens follow, its object stays as it is. *)
Theorem self_closing_equivalence :
  forall token p p1,
    stack_ok p ->
    self_closing token = true ->
    _process_startnode token p = Ok (tt, p1) ->
    (exists q1 q2,
        parse "<a/>" None [] = Ok q1 /\ parse "<a></a>" None [] = Ok q2
        /\ root_tree_of q1 = Some (Node "a" [] None [])
        /\ root_tree_of q2 = root_tree_of q1)
    /\ process_token token p
       = bind (bind (_process_startnode token) (fun _ => _process_endnode token))
              (fun _ => modify (fun p =>
                 with_tokens_processed (tokens_processed p ++ [token])%list p))
              p
    /\ exists p2 t,
         process_token token p = Ok (tt, p2)
         /\ parent_nodes p2 = parent_nodes p
         /\ current_node p2 = current_node p
         /\ heap p2 !! length (heap p)
            = Some (mkXmlNode t (_get_attributes token) None [])
         /\ forall l p3,
              process_tokens l p2 = Ok (tt, p3) ->
              heap p3 !! length (heap p) = heap p2 !! length (heap p).
Proof.
  intros token p p1 [Hall Hcur] Hsc Hstart.
  split.
  { do 2 eexists. split; [vm_compute; reflexivity|].
  split; [vm_compute; reflexivity|].
  split; vm_compute; reflexivity. }
  split; [now apply process_token_self_closing|].
  destruct (_process_endnode_after_start token p p1 Hstart)
    as (p2 & Hend & Hh2 & Hs2 & Hc2).
  destruct (_process_startnode_new token p p1 Hstart)
    as (t & o & _ & Ho & _ & Hnew).
  specialize (Hnew Hall). subst o.
  assert (Hlen : length (heap p) < length (heap p1))
    by (apply lookup_lt_Some in Ho; exact Ho).
  exists (with_tokens_processed (tokens_processed p2 ++ [token])%list p2), t.
  split.
  { rewrite (process_token_self_closing token p Hsc).
    unfold bind. now rewrite Hstart, Hend. }
  cbn [parent_nodes current_node heap with_tokens_processed].
  split; [exact Hs2|]. split; [congruence|].
  split; [now rewrite Hh2|].
  intros l p3 Hl.
  refine (proj2 (keeps_process_tokens (length (heap p)) l _ p3 _ Hl)).
  unfold closed. cbn [parent_nodes current_node heap with_tokens_processed].
  rewrite Hh2, Hs2, Hc2. split; [exact Hlen|]. split; [|reflexivity].
  eapply Forall_impl; [exact Hall|]. cbn. lia.
Qed.

Lemma self_closing_equivalence_witness :
  exists p2 t,
    process_token "<a/>"
      {| xml_string := "<a/>"; tokens := ["<a/>"]; tokens_processed := [];
         xml_root := XmlRoot_default; current_node := None;
         parent_nodes := []; heap := []; stdout := [] |} = Ok (tt, p2)
    /\ parent_nodes p2 = []
    /\ current_node p2 = None
    /\ heap p2 !! 0 = Some (mkXmlNode t (_get_attributes "<a/>") None []).
Proof.
  destruct (self_closing_equivalence "<a/>"
      {| xml_string := "<a/>"; tokens := ["<a/>"]; tokens_processed := [];
         xml_root := XmlRoot_default; current_node := None;
         parent_nodes := []; heap := []; stdout := [] |}
      {| xml_string := "<a/>"; tokens := ["<a/>"]; tokens_processed := [];
         xml_root := with_rootnode (Some 0) XmlRoot_default;
         current_node := Some 0;
         parent_nodes := [0]; heap := [mkXmlNode "a" [] None []];
         stdout := [] |})
    as (_ & _ & p2 & t & H1 & H2 & H3 & H4 & _).
  - split; [constructor | reflexivity].
  - reflexivity.
  - reflexivity.
  - exists p2, t. now repeat split.
Defined.

(** * Further properties *)

(** ** Replacing one character *)

Lemma prefix_nil s : String.prefix "" s = true.
Proof. now destruct s. Qed.

Lemma prefix_cons_ne ch p x s :
  ch <> x -> String.prefix (String ch p) (String x s) = false.
Proof. intros H. rewrite prefix_cons. now destruct (ascii_dec ch x). Qed.

Lemma prefix_cons_eq ch p s :
  String.prefix (String ch p) (String ch s) = String.prefix p s.
Proof. rewrite prefix_cons. now destruct (ascii_dec ch ch). Qed.

Lemma all_chars_append P a b :
  PyStr.all_chars P (a ++ b) = PyStr.all_chars P a && PyStr.all_chars P b.
Proof.
  induction a as [|ch a IH]; simpl; [reflexivity|].
  now rewrite IH, andb_assoc.
Qed.

Lemma all_chars_impl (P Q : ascii -> bool) s :
  (forall x, P x = true -> Q x = true) ->
  PyStr.all_chars P s = true -> PyStr.all_chars Q s = true.
Proof.
  intros HPQ. induction s as [|ch s IH]; simpl; [reflexivity|].
  rewrite !andb_true_iff. intros [H1 H2]. split; [now apply HPQ | now apply IH].
Qed.

(** Where [old] does not begin at a character, the character is kept. *)
Lemma replace_from_keep ch p new x s :
  ch <> x ->
  PyStr.replace_from 0 (String ch p) new (String x s)
  = String x (PyStr.replace_from 0 (String ch p) new s).
Proof.
  intros H. cbn [PyStr.replace_from]. now rewrite prefix_cons_ne.
Qed.

Lemma replace_char_cons c new x s :
  PyStr.replace (String x s) (String c "") new
  = if Ascii.eqb x c then new ++ PyStr.replace s (String c "") new
    else String x (PyStr.replace s (String c "") new).
Proof.
  unfold PyStr.replace. destruct (Ascii.eqb_spec x c) as [->|Hne].
  - cbn [PyStr.replace_from String.length Nat.sub].
    now rewrite prefix_cons_eq, prefix_nil.
  - apply replace_from_keep. congruence.
Qed.

Lemma replace_char_nil c new : PyStr.replace "" (String c "") new = "".
Proof. reflexivity. Qed.

(** A character that does not occur is not replaced. *)
Lemma replace_char_absent c new s :
  PyStr.all_chars (fun x => negb (Ascii.eqb x c)) s = true ->
  PyStr.replace s (String c "") new = s.
Proof.
  induction s as [|x s IH]; [reflexivity|]. simpl PyStr.all_chars.
  rewrite andb_true_iff, negb_true_iff. intros [Hx Hs].
  now rewrite replace_char_cons, Hx, IH.
Qed.

(** After the replacement, the text has only characters of [new] and
    the characters it had, [c] apart. *)
Lemma replace_char_all (P : ascii -> bool) c new s :
  PyStr.all_chars P new = true ->
  PyStr.all_chars (fun x => P x || Ascii.eqb x c) s = true ->
  PyStr.all_chars P (PyStr.replace s (String c "") new) = true.
Proof.
  intros Hnew. induction s as [|x s IH]; [reflexivity|].
  intros H. cbn [PyStr.all_chars] in H. apply andb_true_iff in H as [Hx Hs].
  rewrite replace_char_cons. destruct (Ascii.eqb x c) eqn:E.
  - now rewrite all_chars_append, Hnew, IH.
  - rewrite orb_false_r in Hx. cbn [PyStr.all_chars]. now rewrite Hx, IH.
Qed.

(** ** Escaping, continued *)

Lemma _encode_string_passes s :
  _encode_string s
  = PyStr.replace
      (PyStr.replace
         (PyStr.replace
            (PyStr.replace (PyStr.replace s DQ "&quot;") SQ "&apos;")
            "<" "&lt;")
         ">" "&gt;")
      "&" "&amp;".
Proof. reflexivity. Qed.

Lemma replace_ampersand s :
  PyStr.replace s "&" "&amp;" = ampersands_escaped s.
Proof.
  induction s as [|x s IH]; [reflexivity|].
  rewrite replace_char_cons, IH. reflexivity.
Qed.

(** X1.  The text that [_encode_string] writes holds none of the double
    quote, the apostrophe and the two angle brackets, whatever the value
    is. *)
Theorem _encode_string_no_markup :
  forall value,
    PyStr.all_chars (fun c => negb (is_markup_char c)) (_encode_string value)
    = true.
Proof.
  intros value. rewrite _encode_string_passes.
  apply replace_char_all; [reflexivity|].
  eapply all_chars_impl with (P := fun c => negb (is_markup_char c)).
  { intros x ->. reflexivity. }
  apply replace_char_all; [reflexivity|].
  eapply all_chars_impl
    with (P := fun c => negb (Ascii.eqb c dq || Ascii.eqb c sq || Ascii.eqb c "<")).
  { intros x. unfold is_markup_char.
    destruct (Ascii.eqb x dq), (Ascii.eqb x sq), (Ascii.eqb x "<"),
      (Ascii.eqb x ">"); simpl; congruence. }
  apply replace_char_all; [reflexivity|].
  eapply all_chars_impl
    with (P := fun c => negb (Ascii.eqb c dq || Ascii.eqb c sq)).
  { intros x.
    destruct (Ascii.eqb x dq), (Ascii.eqb x sq), (Ascii.eqb x "<");
      simpl; congruence. }
  apply replace_char_all; [reflexivity|].
  eapply all_chars_impl with (P := fun c => negb (Ascii.eqb c dq)).
  { intros x. destruct (Ascii.eqb x dq), (Ascii.eqb x sq); simpl; congruence. }
  apply replace_char_all; [reflexivity|].
  induction value as [|x s IH]; [reflexivity|]. simpl.
  rewrite IH. now destruct (Ascii.eqb x dq).
Qed.

(** On a value without these four characters, only the ampersands are
    rewritten. *)
Lemma _encode_string_plain s :
  PyStr.all_chars (fun c => negb (is_markup_char c)) s = true ->
  _encode_string s = ampersands_escaped s.
Proof.
  intros H. rewrite _encode_string_passes.
  assert (Hc : forall c, is_markup_char c = true ->
             PyStr.all_chars (fun x => negb (Ascii.eqb x c)) s = true).
  { intros c Hc. eapply all_chars_impl; [|exact H].
    intros x. rewrite !negb_true_iff. intros Hx.
    destruct (Ascii.eqb_spec x c) as [->|]; congruence. }
  unfold DQ, SQ.
  rewrite (replace_char_absent dq), (replace_char_absent sq),
    (replace_char_absent "<"), (replace_char_absent ">")
    by (apply Hc; reflexivity).
  apply replace_ampersand.
Qed.

Lemma replace_from_no_prefix old new x s :
  String.prefix old (String x s) = false ->
  PyStr.replace_from 0 old new (String x s)
  = String x (PyStr.replace_from 0 old new s).
Proof. intros H. cbn [PyStr.replace_from]. now rewrite H. Qed.

(** An entity that does not go on like that of the ampersand is not
    found in a text whose ampersands are all escaped. *)
Lemma replace_entity_escaped name new s :
  (forall rest, String.prefix name ("amp;" ++ rest) = false) ->
  PyStr.replace_from 0 (String "&" name) new (ampersands_escaped s)
  = ampersands_escaped s.
Proof.
  intros Hname. induction s as [|c s IH]; [reflexivity|].
  cbn [ampersands_escaped]. destruct (Ascii.eqb_spec c "&") as [->|Hc].
  - cbn [String.append].
    rewrite replace_from_no_prefix
      by (rewrite prefix_cons_eq; apply (Hname (ampersands_escaped s))).
    rewrite !replace_from_keep by discriminate.
    now rewrite IH.
  - rewrite replace_from_keep by congruence. now rewrite IH.
Qed.

Lemma replace_amp_escaped s :
  PyStr.replace_from 0 "&amp;" "&" (ampersands_escaped s) = s.
Proof.
  induction s as [|c s IH]; [reflexivity|].
  cbn [ampersands_escaped]. destruct (Ascii.eqb_spec c "&") as [->|Hc].
  - cbn [String.append PyStr.replace_from String.length Nat.sub].
    rewrite !prefix_cons_eq, prefix_nil. cbn [String.append].
    now rewrite IH.
  - rewrite replace_from_keep by congruence. now rewrite IH.
Qed.

(** X2.  On a value that holds none of the double quote, the apostrophe
    and the two angle brackets (ampersands are allowed), decoding what
    [_encode_string] wrote gives the value back. *)
Theorem escape_round_trip_plain :
  forall s,
    PyStr.all_chars (fun c => negb (is_markup_char c)) s = true ->
    _decode_string (Some (_encode_string s)) = Some s.
Proof.
  intros s H. rewrite (_encode_string_plain s H).
  unfold _decode_string.
  destruct (PyStr.truthy (ampersands_escaped s)) eqn:E.
  - f_equal. cbn [fold_left XML_REPLACEMENT_CHARS]. unfold PyStr.replace.
    cbn [DQ SQ]. unfold DQ, SQ.
    do 4 (rewrite replace_entity_escaped by (intros rest; reflexivity)).
    apply replace_amp_escaped.
  - f_equal. destruct s as [|c s]; [reflexivity|].
    cbn [ampersands_escaped] in E. now destruct (Ascii.eqb c "&").
Qed.

Lemma escape_round_trip_plain_witness :
  _decode_string (Some (_encode_string "fish & chips; a&amp;b"))
  = Some "fish & chips; a&amp;b".
Proof. apply escape_round_trip_plain. reflexivity. Defined.

(** ** Attributes in the output *)

Lemma _attributes_to_xml_from (d : dict) :
  forall acc,
    fold_left (fun output '(key, value) =>
                 let value := PyStr.replace value DQ "&quot;" in
                 output ++ key ++ "=" ++ DQ ++ value ++ DQ ++ " ") d acc
    = acc ++ _attributes_to_xml d.
Proof.
  unfold _attributes_to_xml.
  induction d as [|[k v] d IH]; intros acc; cbn [fold_left].
  - now rewrite append_nil_r.
  - rewrite IH. rewrite (IH ("" ++ _)). cbv zeta.
    now rewrite append_assoc.
Qed.

(** X3.  The attributes are written in the order of the dict, none is
    left out, and each one is its name, the equals sign, its value
    between double quotes and a space: the text for two dicts one after
    the other is the text of the first followed by that of the second,
    and the text for one attribute is [attribute_text]. *)
Theorem _attributes_to_xml_in_order :
  forall (d1 d2 : dict) k v,
    _attributes_to_xml (d1 ++ d2)%list
    = _attributes_to_xml d1 ++ _attributes_to_xml d2
    /\ _attributes_to_xml ((k, v) :: d2)
       = attribute_text (k, v) ++ _attributes_to_xml d2
    /\ _attributes_to_xml d1 = PyStr.join (map attribute_text d1).
Proof.
  assert (Hcons : forall k v d,
             _attributes_to_xml ((k, v) :: d)
             = attribute_text (k, v) ++ _attributes_to_xml d).
  { intros k v d. unfold _attributes_to_xml at 1. cbn [fold_left].
    rewrite _attributes_to_xml_from. reflexivity. }
  intros d1 d2 k v. split; [|split].
  - induction d1 as [|[k1 v1] d1 IH]; [reflexivity|].
    cbn [app]. now rewrite !Hcons, IH, append_assoc.
  - apply Hcons.
  - induction d1 as [|[k1 v1] d1 IH]; [reflexivity|].
    cbn [map PyStr.join fold_right]. rewrite Hcons. f_equal. exact IH.
Qed.

(** X4.  The value of an attribute, as it is written between its double
    quotes, holds no double quote. *)
Theorem attribute_value_has_no_quote :
  forall value,
    PyStr.all_chars (fun c => negb (Ascii.eqb c dq))
                    (PyStr.replace value DQ "&quot;") = true.
Proof.
  intros value. apply replace_char_all; [reflexivity|].
  induction value as [|x s IH]; [reflexivity|].
  cbn [PyStr.all_chars]. rewrite IH. now destruct (Ascii.eqb x dq).
Qed.

(** ** What is written for a node *)

Lemma append_lt_not_empty a b : a ++ String "<" b <> "".
Proof. now destruct a. Qed.

(** The loop over the children only adds to the text it is given. *)
Lemma children_extend depth :
  forall l xml nl,
    exists rest,
      (fix children (l : list Tree) (xml newlineString : string) :=
         match l with
         | [] => xml ++ newlineString ++ tabs depth
         | newNode :: l' =>
             children l' (xml ++ NL ++ _to_xml newNode (S depth)) NL
         end) l xml nl = xml ++ rest.
Proof.
  induction l as [|n l IH]; intros xml nl.
  - eexists. reflexivity.
  - destruct (IH (xml ++ NL ++ _to_xml n (S depth)) NL) as [rest Hr].
    rewrite Hr, append_assoc. eexists. reflexivity.
Qed.

(** X5.  A node is written as the empty string exactly when it is
    empty; the text of a node that is not empty begins with the tabs of
    its depth, the opening bracket and its tag. *)
Theorem _to_xml_elides_exactly_empty :
  forall tag_ attrs val kids depth,
    let node := Node tag_ attrs val kids in
    (_to_xml node depth = "" <-> is_empty node = true)
    /\ (is_empty node = false ->
        exists rest, _to_xml node depth = tabs depth ++ "<" ++ tag_ ++ rest).
Proof.
  intros tag_ attrs val kids depth node.
  assert (H : is_empty node = false ->
              exists rest, _to_xml node depth = tabs depth ++ "<" ++ tag_ ++ rest).
  { intros He. subst node. cbn [_to_xml]. rewrite He.
    set (xml := if nonempty attrs
                then tabs depth ++ "<" ++ tag_ ++ " " ++ _attributes_to_xml attrs
                else tabs depth ++ "<" ++ tag_).
    assert (Hxml : exists r, xml = tabs depth ++ "<" ++ tag_ ++ r).
    { subst xml. destruct (nonempty attrs); eexists; [reflexivity|].
      now rewrite append_nil_r. }
    destruct Hxml as [r Hxml].
    assert (Hext : forall rest, exists rest',
               xml ++ rest = tabs depth ++ "<" ++ tag_ ++ rest').
    { intros rest. exists (r ++ rest). rewrite Hxml.
      rewrite append_assoc. cbn [String.append]. now rewrite append_assoc. }
    destruct (_ && _); [apply Hext|].
    destruct (nonempty kids).
    - destruct (children_extend depth kids (xml ++ ">") "") as [rest ->].
      rewrite !append_assoc. apply Hext.
    - destruct val as [v|]; [destruct (PyStr.truthy v)|];
        rewrite ?append_assoc; apply Hext. }
  split; [|exact H].
  destruct (is_empty node) eqn:He.
  - split; [reflexivity|]. intros _. subst node. cbn [_to_xml]. now rewrite He.
  - split; [|discriminate]. intros E.
    destruct (H eq_refl) as [rest Hr]. rewrite Hr in E.
    cbn [String.append] in E. now apply append_lt_not_empty in E.
Qed.

(** ** The shape of the tokens *)

Lemma taken_append p y : Re.taken (p ++ y) y = p.
Proof.
  unfold Re.taken. rewrite length_append.
  replace (String.length p + String.length y - String.length y)
    with (String.length p) by lia.
  apply substring_append.
Qed.

(** A greedy run over one class reads characters of the class only. *)
Lemma greedy_rounds_class p n :
  forall s c y c',
    Re.greedy_rounds (Re.run (Re.Chr p)) accept n s c = Some (y, c') ->
    exists q, s = q ++ y /\ PyStr.all_chars p q = true.
Proof.
  assert (Hstop : forall s c y c',
             accept s c = Some (y, c') ->
             exists q, s = q ++ y /\ PyStr.all_chars p q = true).
  { intros s c y c' [= <- _]. now exists "". }
  remember (Re.run (Re.Chr p)) as body eqn:Hbody.
  induction n as [|n IH]; intros s c y c' H.
  - exact (Hstop _ _ _ _ H).
  - cbn [Re.greedy_rounds] in H.
    destruct (body s c _) as [[y1 c1]|] eqn:E in H;
      [|exact (Hstop _ _ _ _ H)].
    injection H as <- <-.
    subst body. cbn [Re.run] in E.
    destruct s as [|ch s0]; [discriminate|].
    destruct (p ch) eqn:Hp; [|discriminate].
    destruct (_ <? _)%nat; [|discriminate].
    destruct (IH s0 c y1 c1 E) as (q & -> & Hq).
    exists (String ch q). split; [reflexivity|].
    cbn [PyStr.all_chars]. now rewrite Hp, Hq.
Qed.

Lemma run_Alt a b s c k :
  Re.run (Re.Alt a b) s c k
  = match Re.run a s c k with
    | Some m => Some m
    | None => Re.run b s c k
    end.
Proof. reflexivity. Qed.

Lemma run_plus_class_piece p ch s :
  p ch = true ->
  exists q y c,
    Re.run (Re.Plus (Re.Chr p)) (String ch s) [] accept = Some (y, c)
    /\ s = q ++ y /\ PyStr.all_chars p q = true.
Proof.
  intros Hp. unfold Re.Plus. cbn [Re.run]. rewrite Hp.
  destruct (greedy_rounds_accept (Re.run (Re.Chr p)) (String.length s) s [])
    as (y & c & E).
  destruct (greedy_rounds_class _ _ _ _ _ _ E) as (q & Hq & Hall).
  exists q, y, c. split; [exact E|]. now split.
Qed.

(** What the master pattern reads at a character: a piece that begins
    with that character and is either markup, begun by the opening
    bracket, or text without any opening bracket. *)
Lemma XML_SPE_reads_piece ch s :
  exists q y c,
    Re.match_at RegexCollector.XML_SPE false (String ch s) = Some (y, c)
    /\ s = q ++ y
    /\ (ch = "<"%char \/ PyStr.all_chars not_lt (String ch q) = true).
Proof.
  destruct (Ascii.eqb_spec ch "<") as [->|Hne].
  - destruct (XML_SPE_reads "<" s) as (y & c & E & [q Hq]).
    exists q, y, c. split; [exact E|]. split; [exact Hq | now left].
  - unfold Re.match_at. cbn [andb].
    change (fun s' c => Some (s', c)) with accept.
    unfold RegexCollector.XML_SPE. rewrite run_Alt.
    unfold RegexCollector.TextSE, Re.none_of.
    assert (Hp : negb (Re.mem ch "<") = true).
    { rewrite mem_lt. now destruct (Ascii.eqb_spec ch "<"). }
    destruct (run_plus_class_piece (fun c => negb (Re.mem c "<")) ch s Hp)
      as (q & y & c & -> & Hq & Hall).
    exists q, y, c. split; [reflexivity|]. split; [exact Hq|]. right.
    cbn [PyStr.all_chars]. unfold not_lt at 1.
    rewrite <- mem_lt, Hp. cbn [andb].
    eapply all_chars_impl; [|exact Hall].
    intros x. unfold not_lt. now rewrite mem_lt.
Qed.

Lemma scan_XML_SPE_pieces fuel :
  forall s, String.length s < fuel ->
    Forall (fun t => t <> ""
                     /\ (PyStr.startswith t "<" = true
                         \/ PyStr.all_chars not_lt t = true))
           (map fst (Re.scan fuel RegexCollector.XML_SPE false s)).
Proof.
  induction fuel as [|fuel IH]; intros s Hs; [lia|].
  destruct s as [|ch s]; [constructor|].
  cbn [Re.scan Re.search].
  destruct (XML_SPE_reads_piece ch s) as (q & y & c & -> & -> & Hshape).
  rewrite (after_shorter ch (q ++ y) y) by now exists q.
  cbn [map fst].
  change (String ch (q ++ y)) with (String ch q ++ y).
  rewrite taken_append. constructor.
  - split; [discriminate|].
    destruct Hshape as [-> | Hall]; [left | now right].
    unfold PyStr.startswith. now rewrite prefix_cons_eq, prefix_nil.
  - apply IH. cbn [String.length] in Hs. rewrite length_append in Hs. lia.
Qed.

(** X6.  No token of the lexer is empty, and a token either begins with
    the opening bracket (markup) or holds no opening bracket at all
    (character data). *)
Theorem tokens_are_markup_or_text :
  forall xmlstring,
    Forall (fun t => t <> ""
                     /\ (PyStr.startswith t "<" = true
                         \/ PyStr.all_chars not_lt t = true))
           (Re.findall RegexCollector.XML_SPE xmlstring).
Proof.
  intros xmlstring. unfold Re.findall, Re.matches.
  apply scan_XML_SPE_pieces. lia.
Qed.

(** ** The first child with a tag *)

Lemma get_all_nodes_filter h self o t :
  h !! self = Some o ->
  get_all_nodes h self t = List.filter (tag_matches h t) (nodes o).
Proof. intros H. unfold get_all_nodes. now rewrite H. Qed.

Lemma index_of_lookup a l :
  forall i, index_of a l = Some i -> l !! i = Some a.
Proof.
  induction l as [|b l IH]; intros i; cbn [index_of]; [discriminate|].
  destruct (Nat.eqb_spec a b) as [->|Hne].
  - now intros [= <-].
  - destruct (index_of a l) as [i'|]; [|discriminate].
    intros [= <-]. now apply IH.
Qed.

(** The head of a filtered list, in the list itself. *)
Lemma head_filter_first (P : nat -> bool) l :
  match head (List.filter P l) with
  | Some n =>
      exists i, index_of n l = Some i
                /\ l !! i = Some n /\ P n = true
                /\ forall j m, j < i -> l !! j = Some m -> P m = false
  | None => Forall (fun m => P m = false) l
  end.
Proof.
  induction l as [|b l IH]; [constructor|].
  cbn [List.filter]. destruct (P b) eqn:Hb.
  - cbn [head]. exists 0. cbn [index_of]. rewrite Nat.eqb_refl.
    repeat split; [exact Hb | intros j m Hj; lia].
  - destruct (head (List.filter P l)) as [n|].
    + destruct IH as (i & Hi & Hl & Hn & Hbefore).
      exists (S i). cbn [index_of].
      destruct (Nat.eqb_spec n b) as [->|Hne]; [congruence|].
      rewrite Hi. repeat split; [exact Hl | exact Hn |].
      intros [|j] m Hj; cbn.
      * now intros [= <-].
      * apply Hbefore. lia.
    + now constructor.
Qed.

Lemma first_match_facts :
  forall h self o t,
    h !! self = Some o ->
    match get_first_node_tag h self t with
    | Some n =>
        exists i, get_index h self (Tag t) = Some i
                  /\ nodes o !! i = Some n
                  /\ tag_matches h t n = true
                  /\ forall j m, j < i -> nodes o !! j = Some m ->
                                 tag_matches h t m = false
    | None =>
        get_index h self (Tag t) = None
        /\ Forall (fun m => tag_matches h t m = false) (nodes o)
    end.
Proof.
  intros h self o t Ho. unfold get_index, get_first_node_tag.
  rewrite (get_all_nodes_filter h self o t Ho), Ho.
  pose proof (head_filter_first (tag_matches h t) (nodes o)) as H.
  destruct (head (List.filter (tag_matches h t) (nodes o))) as [n|].
  - destruct H as (i & Hi & Hl & Hn & Hbefore). exists i. now repeat split.
  - now split.
Qed.

(** X7.  [get_first_node] with a tag gives the first of the children, in
    their order, whose tag is the given one up to case, and [get_index]
    gives its place among the children; they give nothing exactly when
    no child has that tag. *)
Theorem first_child_is_first_match :
  forall h self o t,
    h !! self = Some o ->
    match get_first_node_tag h self t with
    | Some n =>
        exists i, get_index h self (Tag t) = Some i
                  /\ nodes o !! i = Some n
                  /\ tag_matches h t n = true
                  /\ forall j m, j < i -> nodes o !! j = Some m ->
                                 tag_matches h t m = false
    | None =>
        get_index h self (Tag t) = None
        /\ Forall (fun m => tag_matches h t m = false) (nodes o)
    end.
Proof. exact first_match_facts. Qed.

Lemma first_child_is_first_match_witness :
  exists i, get_index chain_store 0 (Tag "A") = Some i
            /\ [1] !! i = Some 1.
Proof.
  pose proof (first_child_is_first_match chain_store 0
                (mkXmlNode "r" [] None [1]) "A" eq_refl) as H.
  cbv beta iota in H.
  change (get_first_node_tag chain_store 0 "A") with (Some 1) in H.
  destruct H as (i & Hi & Hl & _). exists i. split; [exact Hi | exact Hl].
Defined.

Lemma char_lower_idempotent c :
  PyStr.char_lower (PyStr.char_lower c) = PyStr.char_lower c.
Proof.
  destruct c as [[] [] [] [] [] [] [] []]; reflexivity.
Qed.

Lemma lower_idempotent s : PyStr.lower (PyStr.lower s) = PyStr.lower s.
Proof.
  induction s as [|c s IH]; [reflexivity|].
  cbn [PyStr.lower]. now rewrite char_lower_idempotent, IH.
Qed.

(** X8.  The lookup of a tag does not see its case: two tags with the
    same lower-case form find the same nodes, and so does the lower-case
    form itself. *)
Theorem lookup_ignores_case :
  forall h self t t',
    PyStr.lower t = PyStr.lower t' ->
    get_all_nodes h self t = get_all_nodes h self t'
    /\ get_first_node_tag h self t = get_first_node_tag h self t'
    /\ get_all_nodes h self (PyStr.lower t) = get_all_nodes h self t.
Proof.
  assert (H : forall h self t t',
             PyStr.lower t = PyStr.lower t' ->
             get_all_nodes h self t = get_all_nodes h self t').
  { intros h self t t' E. unfold get_all_nodes. now rewrite E. }
  intros h self t t' E. split; [now apply H|]. split.
  - unfold get_first_node_tag. now rewrite (H h self t t' E).
  - apply H, lower_idempotent.
Qed.

Lemma lookup_ignores_case_witness :
  get_first_node_tag chain_store 0 "A" = get_first_node_tag chain_store 0 "a".
Proof.
  apply (lookup_ignores_case chain_store 0 "A" "a"). reflexivity.
Defined.

(** ** Paths *)

(** X9.  The lookup of a path that is not empty raises nothing and gives
    what the tags give one after the other, each looked up among the
    children of the node found before; when all the tags find a node, the
    list is left with its last tag only. *)
Theorem get_first_node_path_resolves :
  forall h l self,
    l <> [] ->
    exists left,
      get_first_node_path h self l = Ok (resolve h self l, left)
      /\ (is_Some (resolve h self l) -> Some left = (fun t => [t]) <$> last l).
Proof.
  intros h l. induction l as [|t l IH]; intros self Hne; [congruence|].
  destruct l as [|t' rest].
  - exists [t]. cbn [get_first_node_path resolve].
    destruct (get_first_node_tag h self t); now split.
  - rewrite get_first_node_path_step. cbn [resolve].
    destruct (get_first_node_tag h self t) as [n|].
    + destruct (IH n ltac:(discriminate)) as (left & E & Hl).
      exists left. split; [exact E|]. now rewrite last_cons_cons.
    + exists (t' :: rest). split; [reflexivity|]. intros [x Hx]. discriminate.
Qed.

Lemma get_first_node_path_resolves_witness :
  exists left,
    get_first_node_path chain_store 0 ["a"; "b"; "c"]
    = Ok (resolve chain_store 0 ["a"; "b"; "c"], left).
Proof.
  destruct (get_first_node_path_resolves chain_store ["a"; "b"; "c"] 0)
    as (left & E & _); [discriminate|].
  now exists left.
Defined.

(** ** Inserting next to a child *)

Lemma list_insert_at_lookup {A} (l : list A) i x :
  i <= length l ->
  list_insert_at i x l !! i = Some x
  /\ length (list_insert_at i x l) = S (length l)
  /\ (forall j, j < i -> list_insert_at i x l !! j = l !! j)
  /\ (forall j, i <= j -> list_insert_at i x l !! S j = l !! j).
Proof.
  intros Hi. unfold list_insert_at.
  assert (Hlen : length (take i l) = i) by now apply length_take_le.
  repeat split.
  - rewrite lookup_app_r by lia. rewrite Hlen, Nat.sub_diag. reflexivity.
  - rewrite length_app. cbn [length]. rewrite Hlen, length_drop. lia.
  - intros j Hj. rewrite lookup_app_l by lia. now apply lookup_take_lt.
  - intros j Hj. rewrite lookup_app_r by lia. rewrite Hlen.
    replace (S j - i) with (S (j - i)) by lia.
    change ((x :: drop i l) !! S (j - i)) with (drop i l !! (j - i)).
    rewrite lookup_drop. f_equal. lia.
Qed.

Lemma _insert_helper_tag h self o t anchor i node add :
  h !! self = Some o ->
  get_first_node_tag h self t = Some anchor ->
  index_of anchor (nodes o) = Some i ->
  _insert_helper h self (Tag t) node add
  = Ok (alter (fun o => set_nodes (list_insert_at (i + add) node (nodes o)) o)
              self h, Tag t).
Proof.
  intros Ho Ha Hi. unfold _insert_helper, get_index. now rewrite Ha, Ho, Hi.
Qed.

(** X10.  When a child of the node has the given tag, [insert_before]
    puts the new node at the place of the first such child, which moves
    one place on, and [insert_after] puts it right after that child; the
    node has one child more, its children before the place stay and those
    from the place on follow the new node in their order, and the node
    keeps its tag, its attributes and its value.  The statement is about
    the list of children of the node itself. *)
Theorem insert_next_to_first_match :
  forall h self o t anchor node,
    h !! self = Some o ->
    get_first_node_tag h self t = Some anchor ->
    exists i h1 h2 o1 o2,
      get_index h self (Tag t) = Some i
      /\ insert_before h self (Tag t) node = Ok (h1, Tag t)
      /\ h1 !! self = Some o1
      /\ nodes o1 !! i = Some node /\ nodes o1 !! S i = Some anchor
      /\ insert_after h self (Tag t) node = Ok (h2, Tag t)
      /\ h2 !! self = Some o2
      /\ nodes o2 !! i = Some anchor /\ nodes o2 !! S i = Some node
      /\ length (nodes o1) = S (length (nodes o))
      /\ length (nodes o2) = S (length (nodes o))
      /\ (forall j, j < i -> nodes o1 !! j = nodes o !! j
                             /\ nodes o2 !! j = nodes o !! j)
      /\ nodes o1 = (take i (nodes o) ++ node :: drop i (nodes o))%list
      /\ nodes o2 = (take (S i) (nodes o) ++ node :: drop (S i) (nodes o))%list
      /\ (tag o1 = tag o /\ attributes o1 = attributes o /\ value o1 = value o)
      /\ (tag o2 = tag o /\ attributes o2 = attributes o /\ value o2 = value o).
Proof.
  intros h self o t anchor node Ho Ha.
  pose proof (first_match_facts h self o t Ho) as H.
  rewrite Ha in H. destruct H as (i & Hidx & Hl & _).
  assert (Hi : index_of anchor (nodes o) = Some i).
  { unfold get_index in Hidx. now rewrite Ha, Ho in Hidx. }
  assert (Hlt : i < length (nodes o)) by (eapply lookup_lt_Some, Hl).
  destruct (list_insert_at_lookup (nodes o) (i + 0) node ltac:(lia))
    as (B1 & B2 & B3 & B4).
  destruct (list_insert_at_lookup (nodes o) (i + 1) node ltac:(lia))
    as (A1 & A2 & A3 & A4).
  pose proof (_insert_helper_tag h self o t anchor i node 0 Ho Ha Hi) as E0.
  pose proof (_insert_helper_tag h self o t anchor i node 1 Ho Ha Hi) as E1.
  rewrite Nat.add_0_r in B1, B2, B3, B4, E0.
  rewrite Nat.add_1_r in A1, A2, A3, A4, E1.
  exists i. do 2 eexists.
  exists (set_nodes (list_insert_at i node (nodes o)) o),
         (set_nodes (list_insert_at (S i) node (nodes o)) o).
  split; [exact Hidx|].
  split; [exact E0|].
  split; [now rewrite list_lookup_alter_eq, Ho|].
  cbn [nodes set_nodes].
  split; [exact B1|]. split; [rewrite B4 by lia; exact Hl|].
  split; [exact E1|].
  split; [now rewrite list_lookup_alter_eq, Ho|].
  split; [rewrite A3 by lia; exact Hl|]. split; [exact A1|].
  split; [exact B2|]. split; [exact A2|].
  split; [intros j Hj; split; [apply B3; lia | apply A3; lia]|].
  split; [reflexivity|]. split; [reflexivity|].
  split; now destruct o.
Qed.

Lemma insert_next_to_first_match_witness :
  exists h1 h2,
    insert_before chain_store 0 (Tag "a") 3 = Ok (h1, Tag "a")
    /\ insert_after chain_store 0 (Tag "a") 3 = Ok (h2, Tag "a").
Proof.
  destruct (insert_next_to_first_match chain_store 0
              (mkXmlNode "r" [] None [1]) "a" 1 3 eq_refl eq_refl)
    as (i & h1 & h2 & o1 & o2 & _ & H1 & _ & _ & _ & H2 & _).
  now exists h1, h2.
Defined.



(** ** Setting and reading through a tag *)

(** The lookups read the tags and the lists of children only. *)
Lemma get_all_nodes_alter f n h self t :
  keeps_shape f ->
  get_all_nodes (alter f n h) self t = get_all_nodes h self t.
Proof.
  intros Hf. unfold get_all_nodes.
  assert (Htag : forall a,
             match alter f n h !! a with
             | Some m => String.eqb (PyStr.lower (tag m)) (PyStr.lower t)
             | None => false
             end
             = match h !! a with
               | Some m => String.eqb (PyStr.lower (tag m)) (PyStr.lower t)
               | None => false
               end).
  { intros a. rewrite list_lookup_alter. destruct (decide (n = a)) as [->|];
      [|reflexivity].
    destruct (h !! a) as [m|]; [|reflexivity]. cbn.
    now rewrite (proj1 (Hf m)). }
  rewrite list_lookup_alter. destruct (decide (n = self)) as [->|].
  - destruct (h !! self) as [o|]; [|reflexivity]. cbn.
    rewrite (proj2 (Hf o)). now apply filter_ext.
  - destruct (h !! self) as [o|]; [|reflexivity]. now apply filter_ext.
Qed.

Lemma get_first_node_path_alter f n h l :
  keeps_shape f ->
  forall self,
    get_first_node_path (alter f n h) self l = get_first_node_path h self l.
Proof.
  intros Hf. induction l as [|t l IH]; intros self.
  - cbn [get_first_node_path]. rewrite list_lookup_alter.
    destruct (decide (n = self)) as [->|]; [|reflexivity].
    destruct (h !! self) as [o|]; [|reflexivity]. cbn.
    now rewrite (proj2 (Hf o)).
  - destruct l as [|t' rest].
    + cbn [get_first_node_path]. unfold get_first_node_tag.
      now rewrite get_all_nodes_alter.
    + rewrite !get_first_node_path_step. unfold get_first_node_tag.
      rewrite get_all_nodes_alter by exact Hf.
      destruct (head (get_all_nodes h self t)); [apply IH | reflexivity].
Qed.

Lemma get_first_node_alter f n h self t :
  keeps_shape f ->
  get_first_node (alter f n h) self t = get_first_node h self t.
Proof.
  intros Hf. destruct t as [s|l]; cbn [get_first_node].
  - unfold get_first_node_tag. now rewrite get_all_nodes_alter.
  - now rewrite get_first_node_path_alter.
Qed.

(** A node that a lookup finds is an object of the store. *)
Lemma get_first_node_tag_object h self t n :
  get_first_node_tag h self t = Some n -> exists o, h !! n = Some o.
Proof.
  intros H. unfold get_first_node_tag, get_all_nodes in H.
  destruct (h !! self) as [o|]; [|discriminate].
  pose proof (head_filter_first (tag_matches h t) (nodes o)) as Hf.
  change (List.filter _ (nodes o)) with (List.filter (tag_matches h t) (nodes o)) in H.
  rewrite H in Hf. destruct Hf as (i & _ & _ & Hm & _).
  unfold tag_matches in Hm. destruct (h !! n) as [m|]; [now exists m | discriminate].
Qed.

Lemma get_first_node_object h self t n t' :
  get_first_node h self t = Ok (Some n, t') -> exists o, h !! n = Some o.
Proof.
  destruct t as [s|l]; cbn [get_first_node].
  - intros [= H _]. eapply get_first_node_tag_object, H.
  - revert self. induction l as [|x l IH]; intros self.
    + cbn [get_first_node_path].
      destruct (h !! self) as [o|]; [destruct (nonempty (nodes o))|];
        discriminate.
    + destruct l as [|y rest].
      * cbn [get_first_node_path]. intros [= H _].
        eapply get_first_node_tag_object, H.
      * rewrite get_first_node_path_step.
        destruct (get_first_node_tag h self x) as [sub|]; [apply IH | discriminate].
Qed.

Lemma keeps_shape_set_value v : keeps_shape (set_value v).
Proof. intros o. now split. Qed.

Lemma keeps_shape_set_attributes d : keeps_shape (set_attributes d).
Proof. intros o. now split. Qed.

(** X12.  When the tag or path finds a node, [set_value] stores the
    decoded form of what it is given, in that node and nowhere else, and
    [get_value] with the same tag or path (a list as it was before the
    call) reads the decoded form back; the same holds for
    [set_attributes] and [get_attributes], without any decoding. *)
Theorem set_then_get :
  forall h self t n t' v d,
    get_first_node h self t = Ok (Some n, t') ->
    exists h1 h2,
      NodeApi.set_value h self t v = Ok (h1, t')
      /\ NodeApi.get_value h1 self t = Ok (_decode_string v, t')
      /\ NodeApi.set_attributes h self t d = Ok (h2, t')
      /\ NodeApi.get_attributes h2 self t = Ok (Some d, t')
      /\ (forall a, a <> n -> h1 !! a = h !! a /\ h2 !! a = h !! a).
Proof.
  intros h self t n t' v d H.
  destruct (get_first_node_object h self t n t' H) as [o Ho].
  exists (alter (set_value v) n h), (alter (set_attributes d) n h).
  split; [unfold NodeApi.set_value; now rewrite H|].
  split.
  { unfold NodeApi.get_value.
    rewrite get_first_node_alter by apply keeps_shape_set_value.
    now rewrite H, list_lookup_alter_eq, Ho. }
  split; [unfold NodeApi.set_attributes; now rewrite H|].
  split.
  { unfold NodeApi.get_attributes.
    rewrite get_first_node_alter by apply keeps_shape_set_attributes.
    now rewrite H, list_lookup_alter_eq, Ho. }
  intros a Hne. split; apply list_lookup_alter_ne; congruence.
Qed.

Lemma set_then_get_witness :
  exists h1,
    NodeApi.set_value chain_store 0 (Path ["a"; "b"; "c"]) (Some "1 &lt; 2")
    = Ok (h1, Path ["c"])
    /\ NodeApi.get_value h1 0 (Path ["a"; "b"; "c"])
       = Ok (Some "1 < 2", Path ["c"]).
Proof.
  destruct (set_then_get chain_store 0 (Path ["a"; "b"; "c"]) 3 (Path ["c"])
              (Some "1 &lt; 2") [] eq_refl)
    as (h1 & h2 & H1 & H2 & _).
  exists h1. split; [exact H1 | exact H2].
Defined.

(** ** Namespaces *)

Lemma split_not_nil sep s : PyStr.split sep s <> [].
Proof.
  destruct s as [|c s]; cbn [PyStr.split]; [discriminate|].
  destruct (Ascii.eqb c sep); [discriminate|].
  destruct (PyStr.split sep s); discriminate.
Qed.

Lemma join_with_cons_char sep c x l :
  PyStr.join_with sep (String c x :: l) = String c (PyStr.join_with sep (x :: l)).
Proof. now destruct l. Qed.

Lemma join_with_cons_cons sep a b l :
  PyStr.join_with sep (a :: b :: l) = a ++ sep ++ PyStr.join_with sep (b :: l).
Proof. reflexivity. Qed.

(** Joining the pieces with the separator gives the text back. *)
Lemma join_with_split sep s :
  PyStr.join_with (String sep "") (PyStr.split sep s) = s.
Proof.
  induction s as [|c s IH]; [reflexivity|]. cbn [PyStr.split].
  destruct (Ascii.eqb_spec c sep) as [->|Hne].
  - destruct (PyStr.split sep s) as [|x l] eqn:E; [now apply split_not_nil in E|].
    rewrite join_with_cons_cons, IH. reflexivity.
  - destruct (PyStr.split sep s) as [|x l] eqn:E; [now apply split_not_nil in E|].
    now rewrite join_with_cons_char, IH.
Qed.

Lemma split_no_sep sep a :
  PyStr.all_chars (fun c => negb (Ascii.eqb c sep)) a = true ->
  PyStr.split sep a = [a].
Proof.
  induction a as [|c a IH]; [reflexivity|]. cbn [PyStr.all_chars PyStr.split].
  rewrite andb_true_iff, negb_true_iff. intros [-> Ha]. now rewrite IH.
Qed.

Lemma split_at_first_sep sep a b :
  PyStr.all_chars (fun c => negb (Ascii.eqb c sep)) a = true ->
  PyStr.split sep (a ++ String sep b) = a :: PyStr.split sep b.
Proof.
  induction a as [|c a IH].
  - intros _. cbn [String.append PyStr.split]. now rewrite Ascii.eqb_refl.
  - cbn [PyStr.all_chars String.append PyStr.split].
    rewrite andb_true_iff, negb_true_iff. intros [-> Ha]. now rewrite IH.
Qed.

(** The name [namespaces] makes of an attribute: the text after the
    first colon, whatever colons follow, and the reserved name when the
    attribute has no colon. *)
Lemma namespace_prefix_rest a b :
  PyStr.all_chars (fun c => negb (Ascii.eqb c ":")) a = true ->
  NodeApi.namespace_prefix (a ++ ":" ++ b) = b
  /\ NodeApi.namespace_prefix a = "vtc_global_ns".
Proof.
  intros Ha. unfold NodeApi.namespace_prefix. split.
  - cbn [String.append]. rewrite (split_at_first_sep ":" a b Ha).
    pose proof (join_with_split ":" b) as Hj.
    destruct (PyStr.split ":" b) as [|x [|y l]] eqn:E.
    + now apply split_not_nil in E.
    + exact Hj.
    + exact Hj.
  - now rewrite (split_no_sep ":" a Ha).
Qed.

Lemma startswith_append s p t :
  PyStr.startswith s p = true -> PyStr.startswith (s ++ t) p = true.
Proof.
  unfold PyStr.startswith. revert s.
  induction p as [|ch p IH]; intros s; [intros _; apply prefix_nil|].
  destruct s as [|x s]; [discriminate|].
  cbn [String.append]. rewrite !prefix_cons.
  destruct (ascii_dec ch x); [apply IH | discriminate].
Qed.

Lemma dict_get_set_eq k v d : dict_get k (dict_set k v d) = Some v.
Proof.
  induction d as [|[k' v'] d IH]; cbn [dict_set dict_get].
  - now rewrite String.eqb_refl.
  - destruct (String.eqb k k') eqn:E; cbn [dict_get]; now rewrite E.
Qed.

Lemma dict_get_set_ne k k' v d :
  k <> k' -> dict_get k (dict_set k' v d) = dict_get k d.
Proof.
  intros Hne. induction d as [|[k2 v2] d IH]; cbn [dict_set dict_get].
  - destruct (String.eqb_spec k k'); [contradiction | reflexivity].
  - destruct (String.eqb_spec k' k2) as [->|Hk]; cbn [dict_get].
    + destruct (String.eqb_spec k k2); [contradiction | reflexivity].
    + now rewrite IH.
Qed.

Lemma namespaces_from_cons k uri l acc :
  namespaces_from ((k, uri) :: l) acc
  = namespaces_from l
      (if negb (PyStr.startswith k "xmlns") then acc
       else dict_set (NodeApi.namespace_prefix k) uri acc).
Proof. reflexivity. Qed.

Lemma namespaces_from_app l1 l2 acc :
  namespaces_from (l1 ++ l2)%list acc = namespaces_from l2 (namespaces_from l1 acc).
Proof. apply fold_left_app. Qed.

Lemma namespaces_from_later b l :
  (forall k v, In (k, v) l -> PyStr.startswith k "xmlns" = true ->
               NodeApi.namespace_prefix k <> b) ->
  forall acc, dict_get b (namespaces_from l acc) = dict_get b acc.
Proof.
  induction l as [|[k v] l IH]; intros Hl acc; [reflexivity|].
  rewrite namespaces_from_cons.
  rewrite IH by (intros k' v' Hin; apply (Hl k' v'); now right).
  destruct (PyStr.startswith k "xmlns") eqn:E; cbn [negb]; [|reflexivity].
  apply dict_get_set_ne. intros Hb.
  now apply (Hl k v (or_introl eq_refl) E).
Qed.

Lemma namespaces_from_sound p v l :
  forall acc,
    dict_get p (namespaces_from l acc) = Some v ->
    dict_get p acc = Some v
    \/ exists k, In (k, v) l /\ PyStr.startswith k "xmlns" = true
                  /\ NodeApi.namespace_prefix k = p.
Proof.
  induction l as [|[k u] l IH]; intros acc H; [now left|].
  rewrite namespaces_from_cons in H. apply IH in H.
  destruct H as [H|(k' & Hin & Hx & Hp)];
    [|right; exists k'; split; [now right | now split]].
  destruct (PyStr.startswith k "xmlns") eqn:E; cbn [negb] in H; [|now left].
  destruct (String.eqb_spec p (NodeApi.namespace_prefix k)) as [->|Hne].
  - rewrite dict_get_set_eq in H. injection H as ->.
    right. exists k. split; [now left | now split].
  - rewrite dict_get_set_ne in H by exact Hne. now left.
Qed.

Lemma namespaces_from_filter l :
  forall acc,
    namespaces_from l acc
    = namespaces_from
        (List.filter (fun '(k, _) => PyStr.startswith k "xmlns") l) acc.
Proof.
  induction l as [|[k u] l IH]; intros acc; [reflexivity|].
  cbn [List.filter]. destruct (PyStr.startswith k "xmlns") eqn:E.
  - rewrite !namespaces_from_cons, E. apply IH.
  - rewrite namespaces_from_cons, E. apply IH.
Qed.

(** X13.  [namespaces] files every attribute that begins with xmlns, and
    no other: under the text after the first colon of its name, whatever
    colons follow, or under the reserved name when the name has no colon,
    with the value of the attribute; of two attributes that come to the
    same name the later one stays.  Attributes that do not begin with
    xmlns count for nothing, and every entry of the result comes from an
    attribute that begins with xmlns. *)
Theorem namespaces_files_xmlns_attributes :
  forall o d1 d2 a b uri,
    PyStr.startswith a "xmlns" = true ->
    PyStr.all_chars (fun c => negb (Ascii.eqb c ":")) a = true ->
    (attributes o = (d1 ++ ((a ++ ":" ++ b)%string, uri) :: d2)%list ->
     (forall k v, In (k, v) d2 -> PyStr.startswith k "xmlns" = true ->
                  NodeApi.namespace_prefix k <> b) ->
     dict_get b (NodeApi.namespaces o) = Some uri)
    /\ (attributes o = (d1 ++ (a, uri) :: d2)%list ->
        (forall k v, In (k, v) d2 -> PyStr.startswith k "xmlns" = true ->
                     NodeApi.namespace_prefix k <> "vtc_global_ns") ->
        dict_get "vtc_global_ns" (NodeApi.namespaces o) = Some uri)
    /\ NodeApi.namespaces o
       = NodeApi.namespaces
           (set_attributes
              (List.filter (fun '(k, _) => PyStr.startswith k "xmlns")
                           (attributes o)) o)
    /\ (forall p v,
          dict_get p (NodeApi.namespaces o) = Some v ->
          exists k, In (k, v) (attributes o)
                    /\ PyStr.startswith k "xmlns" = true
                    /\ NodeApi.namespace_prefix k = p).
Proof.
  intros o d1 d2 a b uri Hx Ha.
  destruct (namespace_prefix_rest a b Ha) as [Pb Pa].
  change (NodeApi.namespaces o) with (namespaces_from (attributes o) []).
  split; [|split; [|split]].
  - intros -> Hl.
    rewrite namespaces_from_app, namespaces_from_cons,
      (namespaces_from_later b d2 Hl), (startswith_append a "xmlns" _ Hx), Pb.
    apply dict_get_set_eq.
  - intros -> Hl.
    rewrite namespaces_from_app, namespaces_from_cons,
      (namespaces_from_later _ d2 Hl), Hx, Pa.
    apply dict_get_set_eq.
  - apply namespaces_from_filter.
  - intros p v H. apply namespaces_from_sound in H.
    destruct H as [H|H]; [discriminate | exact H].
Qed.

Lemma namespaces_files_xmlns_attributes_witness :
  let o := mkXmlNode "r" [("id", "1"); ("xmlns:h:x", "u"); ("xmlns", "w")]
                     None [] in
  dict_get "h:x" (NodeApi.namespaces o) = Some "u"
  /\ dict_get "vtc_global_ns" (NodeApi.namespaces o) = Some "w".
Proof.
  intros o. split.
  - apply (proj1 (namespaces_files_xmlns_attributes
                    o [("id", "1")] [("xmlns", "w")] "xmlns" "h:x" "u"
                    eq_refl eq_refl)); [reflexivity|].
    intros k v [E|[]] _. injection E as <- <-. vm_compute. discriminate.
  - apply (proj1 (proj2 (namespaces_files_xmlns_attributes
                    o [("id", "1"); ("xmlns:h:x", "u")] [] "xmlns" "" "w"
                    eq_refl eq_refl))); [reflexivity|].
    intros k v [].
Defined.

(** ** What the parser keeps *)

(** The two handlers of tags, as changes of the parser. *)
Lemma _process_startnode_state token p p1 :
  _process_startnode token p = Ok (tt, p1) ->
  exists t,
    head (Re.findall RegexCollector.Name token) = Some t
    /\ let node := length (heap p) in
       let h1 := alter (set_attributes (_get_attributes token)) node
                       (heap p ++ [XmlNode_init t])%list in
       p1 = with_parent_nodes (parent_nodes p ++ [node])%list
              (match last (parent_nodes p) with
               | None =>
                   with_xml_root (with_rootnode (Some node) (xml_root p))
                     (with_heap h1 (with_current_node (Some node) p))
               | Some top =>
                   with_heap (alter (append_node node) top h1)
                     (with_current_node (Some node) p)
               end).
Proof.
  unfold _process_startnode, bind at 1.
  destruct (_get_tag token p) as [[t p']|e] eqn:E; [|discriminate].
  apply _get_tag_ok in E as [-> Ht].
  unfold bind, get, modify.
  destruct (last (parent_nodes p)) eqn:El; intros [= <-]; exists t;
    (split; [exact Ht | reflexivity]).
Qed.

Lemma _process_endnode_state token p p2 :
  _process_endnode token p = Ok (tt, p2) ->
  p2 = with_current_node (last (removelast (parent_nodes p)))
         (with_parent_nodes (removelast (parent_nodes p)) p).
Proof.
  unfold _process_endnode, bind at 1.
  destruct (_get_tag token p) as [[t p']|e] eqn:E; [|discriminate].
  apply _get_tag_ok in E as [-> Ht].
  unfold bind at 1, get.
  destruct (current_node p) as [cur|].
  - destruct (heap p !! cur) as [o|]; [|discriminate].
    destruct (negb _).
    + unfold bind. destruct (_get_position_ok p) as [pos ->]. discriminate.
    + destruct (parent_nodes p) as [|x l] eqn:El; [discriminate|].
      unfold bind, modify. now intros [= <-].
  - unfold bind. destruct (_get_position_ok p) as [pos ->]. discriminate.
Qed.

Lemma _get_tag_raises token p e :
  _get_tag token p = Raise e -> exists msg, e = XmlException msg.
Proof.
  unfold _get_tag. destruct (Re.findall _ token); [|discriminate].
  unfold bind. destruct (_get_position_ok p) as [pos ->].
  intros [= <-]. now eexists.
Qed.

Lemma _process_startnode_raises token p e :
  _process_startnode token p = Raise e -> exists msg, e = XmlException msg.
Proof.
  unfold _process_startnode, bind at 1.
  destruct (_get_tag token p) as [[t p']|e'] eqn:E.
  - apply _get_tag_ok in E as [-> _]. unfold bind, get, modify.
    destruct (last (parent_nodes p)); discriminate.
  - intros [= <-]. eapply _get_tag_raises, E.
Qed.

(** With the current node on top of a stack of objects, the end-tag
    handling raises nothing but [XmlException]. *)
Lemma _process_endnode_raises token p e :
  stack_ok p ->
  _process_endnode token p = Raise e -> exists msg, e = XmlException msg.
Proof.
  intros [Hall Hcur]. unfold _process_endnode, bind at 1.
  destruct (_get_tag token p) as [[t p']|e'] eqn:E.
  - apply _get_tag_ok in E as [-> _]. unfold bind at 1, get.
    destruct (current_node p) as [cur|] eqn:Ec.
    + symmetry in Hcur.
      assert (Hin : cur ∈ parent_nodes p) by now apply last_Some_elem_of.
      rewrite Forall_forall in Hall. apply Hall in Hin.
      destruct (lookup_lt_is_Some_2 _ _ Hin) as [o ->].
      destruct (negb _).
      * unfold bind. destruct (_get_position_ok p) as [pos ->].
        intros [= <-]. now eexists.
      * destruct (parent_nodes p) as [|x l]; [discriminate|].
        unfold bind, modify. discriminate.
    + unfold bind. destruct (_get_position_ok p) as [pos ->].
      intros [= <-]. now eexists.
  - intros [= <-]. eapply _get_tag_raises, E.
Qed.

Lemma new_object_lookup (h : list XmlNode) f x a :
  alter f (length h) (h ++ [x])%list !! a
  = if decide (a < length h) then h !! a
    else if decide (a = length h) then Some (f x) else None.
Proof.
  destruct (decide (a < length h)) as [Hlt|Hge].
  - rewrite list_lookup_alter_ne by lia. now apply lookup_app_l.
  - destruct (decide (a = length h)) as [->|Hne].
    + rewrite list_lookup_alter_eq, list_lookup_middle by reflexivity.
      reflexivity.
    + rewrite list_lookup_alter_ne by lia.
      apply lookup_ge_None. rewrite length_app. cbn [length]. lia.
Qed.

Lemma heap_ok_new_object (h : list XmlNode) f t :
  heap_ok h -> nodes (f (XmlNode_init t)) = [] ->
  heap_ok (alter f (length h) (h ++ [XmlNode_init t])%list).
Proof.
  intros Hh Hf a o. rewrite new_object_lookup, length_alter, length_app.
  cbn [length]. destruct (decide (a < length h)) as [Hlt|Hge].
  - intros Ho. eapply Forall_impl; [exact (Hh a o Ho)|]. cbn. lia.
  - destruct (decide (a = length h)); [|discriminate].
    intros [= <-]. rewrite Hf. constructor.
Qed.

Lemma heap_ok_append_node (h : list XmlNode) top n :
  heap_ok h -> top < n -> n < length h ->
  heap_ok (alter (append_node n) top h).
Proof.
  intros Hh Htop Hn a o. rewrite list_lookup_alter, length_alter.
  destruct (decide (top = a)) as [->|Hne]; [|apply Hh].
  destruct (h !! a) as [o1|] eqn:Ho1; [|discriminate].
  intros [= <-]. cbn [append_node set_nodes nodes]. apply Forall_app.
  split; [exact (Hh a o1 Ho1)|]. now repeat constructor.
Qed.

Lemma heap_ok_keeps_shape (h : list XmlNode) f n :
  heap_ok h -> keeps_shape f -> heap_ok (alter f n h).
Proof.
  intros Hh Hf a o. rewrite list_lookup_alter, length_alter.
  destruct (decide (n = a)) as [->|Hne]; [|apply Hh].
  destruct (h !! a) as [o1|] eqn:Ho1; [|discriminate].
  intros [= <-]. rewrite (proj2 (Hf o1)). exact (Hh a o1 Ho1).
Qed.

Lemma preserves_ret I : preserves I (ret tt).
Proof. now intros p p' Hp [= <-]. Qed.

Lemma preserves_bind I (m1 m2 : M unit) :
  preserves I m1 -> preserves I m2 -> preserves I (bind m1 (fun _ => m2)).
Proof.
  intros H1 H2 p p' Hp. unfold bind.
  destruct (m1 p) as [[[] p1]|e] eqn:E1; [|discriminate].
  intros E2. eapply H2; [|exact E2]. eapply H1; [exact Hp | exact E1].
Qed.

Lemma preserves_if I (b : bool) (m1 m2 : M unit) :
  preserves I m1 -> preserves I m2 -> preserves I (if b then m1 else m2).
Proof. now destruct b. Qed.

Lemma preserves_modify I f :
  (forall p, I p -> I (f p)) -> preserves I (modify f).
Proof. intros Hf p p' Hp [= <-]. now apply Hf. Qed.

Lemma parser_ok_print x y : preserves parser_ok (print x y).
Proof. apply preserves_modify. now intros p. Qed.

Lemma parser_ok_xmldeclaration token :
  preserves parser_ok (_process_xmldeclaration token).
Proof.
  intros p p' ((Hall & Hcur) & Hheap & Hroot) E.
  destruct (_process_xmldeclaration_sets token p)
    as (q & Eq & _ & _ & _ & Hr & Hh & Hs & Hc).
  rewrite Eq in E. injection E as <-.
  unfold parser_ok, stack_ok, root_ok. rewrite Hr, Hh, Hs, Hc.
  now repeat split.
Qed.

Lemma parser_ok_endnode token : preserves parser_ok (_process_endnode token).
Proof.
  intros p p' ((Hall & Hcur) & Hheap & Hroot) E.
  apply _process_endnode_state in E as ->.
  split; [split|split]; cbn; try assumption; try reflexivity.
  now apply Forall_removelast.
Qed.

Lemma parser_ok_startnode token :
  preserves parser_ok (_process_startnode token).
Proof.
  intros p p' ((Hall & Hcur) & Hheap & Hroot) E.
  apply _process_startnode_state in E as (t & _ & ->). cbv zeta.
  set (n := length (heap p)).
  set (h1 := alter (set_attributes (_get_attributes token)) n
                   (heap p ++ [XmlNode_init t])%list).
  assert (Hlen1 : length h1 = S n).
  { subst h1. rewrite length_alter, length_app. cbn [length]. lia. }
  assert (Hh1 : heap_ok h1) by now apply heap_ok_new_object.
  assert (Hstack : Forall (fun a => a < S n) (parent_nodes p ++ [n])%list).
  { apply Forall_app. split; [|now repeat constructor].
    eapply Forall_impl; [exact Hall|]. cbn. fold n. lia. }
  destruct (last (parent_nodes p)) as [top|] eqn:El.
  - assert (Htop : top < n).
    { apply last_Some_elem_of in El. rewrite Forall_forall in Hall.
      now apply Hall. }
    split; [split|split]; cbn.
    + now rewrite length_alter, Hlen1.
    + now rewrite last_snoc.
    + apply heap_ok_append_node; [exact Hh1 | exact Htop | lia].
    + intros a Ha. cbn in Ha |- *. rewrite length_alter, Hlen1.
      apply Hroot in Ha. fold n in Ha. lia.
  - split; [split|split]; cbn.
    + now rewrite Hlen1.
    + now rewrite last_snoc.
    + exact Hh1.
    + intros a Ha. cbn in Ha |- *. injection Ha as <-. rewrite Hlen1. lia.
Qed.

Lemma parser_ok_text token :
  preserves parser_ok (bind get (fun p =>
    match current_node p with
    | Some cur =>
        if PyStr.truthy token && negb (PyStr.isspace token)
        then modify (fun p => with_heap
                       (alter (set_value (Some token)) cur (heap p)) p)
        else ret tt
    | None => ret tt
    end)).
Proof.
  intros p p' Hp. unfold bind, get.
  destruct (current_node p) as [cur|]; [|now apply preserves_ret].
  destruct (_ && _); [|now apply preserves_ret].
  destruct Hp as ((Hall & Hcur) & Hheap & Hroot). intros [= <-].
  split; [split|split]; cbn; try assumption.
  - now rewrite length_alter.
  - apply heap_ok_keeps_shape; [exact Hheap | apply keeps_shape_set_value].
  - intros a Ha. cbn in Ha |- *. rewrite length_alter. now apply Hroot.
Qed.

Lemma parser_ok_process_token token : preserves parser_ok (process_token token).
Proof.
  unfold process_token. apply preserves_bind.
  - repeat (apply preserves_if;
            try apply preserves_ret;
            try apply parser_ok_xmldeclaration;
            try apply parser_ok_endnode;
            try apply parser_ok_startnode;
            try apply parser_ok_print).
    + apply preserves_bind; [apply parser_ok_startnode | apply parser_ok_endnode].
    + apply parser_ok_text.
  - apply preserves_modify. now intros p.
Qed.

Lemma parser_ok_process_tokens l : preserves parser_ok (process_tokens l).
Proof.
  induction l as [|token l IH]; [apply preserves_ret|].
  cbn [process_tokens].
  apply preserves_bind; [apply parser_ok_process_token | exact IH].
Qed.

(** The part of it that needs nothing of the store the parse starts
    with: the stack holds objects and the current node is its top. *)
Lemma stack_ok_startnode token : preserves stack_ok (_process_startnode token).
Proof.
  intros p p' (Hall & Hcur) E.
  apply _process_startnode_state in E as (t & _ & ->). cbv zeta.
  assert (Hstack : Forall (fun a => a < S (length (heap p)))
                          (parent_nodes p ++ [length (heap p)])%list).
  { apply Forall_app. split; [|now repeat constructor].
    eapply Forall_impl; [exact Hall|]. cbn. lia. }
  destruct (last (parent_nodes p)); split; cbn;
    rewrite ?length_alter, ?length_app, ?last_snoc; cbn [length];
    rewrite ?Nat.add_1_r; try reflexivity; exact Hstack.
Qed.

Lemma stack_ok_endnode token : preserves stack_ok (_process_endnode token).
Proof.
  intros p p' (Hall & Hcur) E. apply _process_endnode_state in E as ->.
  split; cbn; [now apply Forall_removelast | reflexivity].
Qed.

Lemma stack_ok_xmldeclaration token :
  preserves stack_ok (_process_xmldeclaration token).
Proof.
  intros p p' (Hall & Hcur) E.
  destruct (_process_xmldeclaration_sets token p)
    as (q & Eq & _ & _ & _ & _ & Hh & Hs & Hc).
  rewrite Eq in E. injection E as <-.
  unfold stack_ok. rewrite Hh, Hs, Hc. now split.
Qed.

Lemma stack_ok_text token :
  preserves stack_ok (bind get (fun p =>
    match current_node p with
    | Some cur =>
        if PyStr.truthy token && negb (PyStr.isspace token)
        then modify (fun p => with_heap
                       (alter (set_value (Some token)) cur (heap p)) p)
        else ret tt
    | None => ret tt
    end)).
Proof.
  intros p p' Hp. unfold bind, get.
  destruct (current_node p) as [cur|]; [|now apply preserves_ret].
  destruct (_ && _); [|now apply preserves_ret].
  destruct Hp as (Hall & Hcur). intros [= <-].
  split; cbn; [now rewrite length_alter | assumption].
Qed.

Lemma stack_ok_process_token token : preserves stack_ok (process_token token).
Proof.
  unfold process_token. apply preserves_bind.
  - repeat (apply preserves_if;
            try apply preserves_ret;
            try apply stack_ok_xmldeclaration;
            try apply stack_ok_endnode;
            try apply stack_ok_startnode;
            try (apply preserves_modify; now intros p)).
    + apply preserves_bind; [apply stack_ok_startnode | apply stack_ok_endnode].
    + apply stack_ok_text.
  - apply preserves_modify. now intros p.
Qed.

(** ** What the parser raises *)

Lemma raises_ret I : raises_only_XmlException I (ret tt).
Proof. intros p e _. discriminate. Qed.

Lemma raises_modify I f : raises_only_XmlException I (modify f).
Proof. intros p e _. discriminate. Qed.

Lemma raises_if I (b : bool) (m1 m2 : M unit) :
  raises_only_XmlException I m1 -> raises_only_XmlException I m2 ->
  raises_only_XmlException I (if b then m1 else m2).
Proof. now destruct b. Qed.

Lemma raises_bind I (m1 m2 : M unit) :
  raises_only_XmlException I m1 -> preserves I m1 ->
  raises_only_XmlException I m2 ->
  raises_only_XmlException I (bind m1 (fun _ => m2)).
Proof.
  intros H1 Hp H2 p e HI. unfold bind.
  destruct (m1 p) as [[[] p1]|e1] eqn:E1.
  - apply H2. eapply Hp; [exact HI | exact E1].
  - intros [= <-]. eapply H1; [exact HI | exact E1].
Qed.

Lemma raises_xmldeclaration I token :
  raises_only_XmlException I (_process_xmldeclaration token).
Proof.
  intros p e _ E.
  destruct (_process_xmldeclaration_sets token p) as (q & Eq & _).
  rewrite Eq in E. discriminate.
Qed.

Lemma raises_text I token :
  raises_only_XmlException I (bind get (fun p =>
    match current_node p with
    | Some cur =>
        if PyStr.truthy token && negb (PyStr.isspace token)
        then modify (fun p => with_heap
                       (alter (set_value (Some token)) cur (heap p)) p)
        else ret tt
    | None => ret tt
    end)).
Proof.
  intros p e _. unfold bind, get.
  destruct (current_node p); [destruct (_ && _)|]; discriminate.
Qed.

Lemma preserves_bind_modify_inv I (m1 : M unit) f :
  (forall p, I (f p) -> I p) ->
  preserves I (bind m1 (fun _ => modify f)) -> preserves I m1.
Proof.
  intros Hf H p p' Hp E. apply Hf. apply (H p (f p') Hp).
  unfold bind, modify. now rewrite E.
Qed.

Lemma raises_process_token token :
  raises_only_XmlException stack_ok (process_token token).
Proof.
  unfold process_token. apply raises_bind.
  - repeat (apply raises_if;
            try apply raises_ret;
            try apply raises_xmldeclaration;
            try (intros p e Hp; apply _process_endnode_raises; exact Hp);
            try (intros p e _; apply _process_startnode_raises);
            try apply raises_modify).
    + apply raises_bind.
      * intros p e _. apply _process_startnode_raises.
      * apply stack_ok_startnode.
      * intros p e Hp. now apply _process_endnode_raises.
    + apply raises_text.
  - eapply preserves_bind_modify_inv; [|exact (stack_ok_process_token token)].
    now intros p.
  - apply raises_modify.
Qed.

Lemma raises_process_tokens l :
  raises_only_XmlException stack_ok (process_tokens l).
Proof.
  induction l as [|token l IH]; [apply raises_ret|].
  cbn [process_tokens]. apply raises_bind;
    [apply raises_process_token | apply stack_ok_process_token | exact IH].
Qed.

(** X14.  Whatever the text, the document and the store given, a parse
    that fails raises [XmlException]: no assertion fails, and the parser
    never reaches for a node that is not there. *)
Theorem parse_raises_only_XmlException :
  forall xmlstring r h e,
    parse xmlstring r h = Raise e -> exists msg, e = XmlException msg.
Proof.
  intros xmlstring r h e.
  unfold parse, XmlParser_init, XmlParser_of_tokens, _assert_lex.
  rewrite findall_XML_SPE, String.eqb_refl.
  unfold parse_xml, bind at 1, get. unfold bind at 1.
  match goal with
  | |- context [process_tokens ?l ?p0] =>
      destruct (process_tokens l p0) as [[[] p1]|e1] eqn:E
  end.
  - discriminate.
  - intros [= <-]. eapply raises_process_tokens; [|exact E].
    split; [constructor | reflexivity].
Qed.

Lemma parse_raises_only_XmlException_witness :
  parse "</a>" None [] = Raise (XmlException (ClosingNodeNoOpenNode "a" 0 0))
  /\ exists msg, XmlException (ClosingNodeNoOpenNode "a" 0 0) = XmlException msg.
Proof.
  split; [reflexivity|].
  apply (parse_raises_only_XmlException "</a>" None []). reflexivity.
Defined.

(** ** The store after a parse *)

Lemma parse_ok_steps xmlstring r h p :
  parse xmlstring r h = Ok p ->
  exists p0, XmlParser_init xmlstring r h = Ok p0
             /\ process_tokens (tokens p0) p0 = Ok (tt, p).
Proof.
  unfold parse. destruct (XmlParser_init xmlstring r h) as [p0|]; [|discriminate].
  unfold parse_xml, bind at 1, get. unfold bind at 1.
  destruct (process_tokens (tokens p0) p0) as [[[] p1]|e] eqn:E; [|discriminate].
  unfold bind, get, ret. intros [= <-]. now exists p0.
Qed.

Lemma parse_parser_ok xmlstring r h p :
  heap_ok h ->
  (forall r0 a, r = Some r0 -> rootnode r0 = Some a -> a < length h) ->
  parse xmlstring r h = Ok p ->
  parser_ok p.
Proof.
  intros Hh Hr Hparse.
  destruct (parse_ok_steps xmlstring r h p Hparse) as (p0 & Hinit & Hrun).
  apply (parser_ok_process_tokens (tokens p0) p0 p); [|exact Hrun].
  unfold XmlParser_init, XmlParser_of_tokens in Hinit.
  destruct (_assert_lex _ _); [|discriminate]. injection Hinit as <-.
  split; [split; [constructor | reflexivity]|].
  split; [exact Hh|].
  intros x. cbn. destruct r as [r0|]; [now apply Hr | discriminate].
Qed.

(** X15.  When the store given to the parse has its objects in order
    (the children of an object were made after it) and the root of the
    document given, if any, is an object, then after the parse the stack
    holds objects with the current node on top, the store is still in
    order, and the root of the document is an object. *)
Theorem parse_keeps_store_in_order :
  forall xmlstring r h p,
    heap_ok h ->
    (forall r0 a, r = Some r0 -> rootnode r0 = Some a -> a < length h) ->
    parse xmlstring r h = Ok p ->
    parser_ok p.
Proof. intros xmlstring r h p. apply parse_parser_ok. Qed.

Lemma parse_keeps_store_in_order_witness :
  exists p, parse doc_round_trip None [] = Ok p /\ parser_ok p.
Proof.
  eexists. split; [vm_compute; reflexivity|].
  apply (parse_keeps_store_in_order doc_round_trip None []).
  - intros a o Ho. discriminate.
  - intros r0 a Hr. discriminate.
  - vm_compute; reflexivity.
Defined.

(** In a store in order, the tree under any object can be read. *)
Lemma snapshot_is_Some (h : list XmlNode) :
  heap_ok h ->
  forall fuel a, a < length h -> length h - a <= fuel ->
                 is_Some (snapshot fuel h a).
Proof.
  intros Hh. induction fuel as [|fuel IH]; intros a Ha Hfuel; [lia|].
  cbn [snapshot]. destruct (lookup_lt_is_Some_2 h a Ha) as [o Ho]. rewrite Ho.
  assert (Hkids : is_Some (mapM (snapshot fuel h) (nodes o))).
  { apply mapM_is_Some_2. eapply Forall_impl; [exact (Hh a o Ho)|].
    intros b [Hab Hb]. apply IH; lia. }
  destruct Hkids as [kids ->]. now eexists.
Qed.

(** X16.  Under the same conditions, the objects under the root node
    of a parsed document form a finite tree: every child is an object
    made after its parent, so that no node sits under itself, no
    reference dangles, and the tree can be read off the store.  Whenever
    the serializer returns a text for the document, the text is the
    declaration line followed by the text of that tree.  (Whether it
    returns for a tree of great depth is a matter of the interpreter's
    stack, which is not modelled.) *)
Theorem parsed_document_is_a_tree :
  forall xmlstring r h p a,
    heap_ok h ->
    (forall r0 a, r = Some r0 -> rootnode r0 = Some a -> a < length h) ->
    parse xmlstring r h = Ok p ->
    rootnode (xml_root p) = Some a ->
    exists t,
      tree_of (heap p) a = Some t
      /\ forall out,
           to_xml (heap p) (xml_root p) = Ok out ->
           out = declaration_line (xml_root p) ++ _to_xml t 0.
Proof.
  intros xmlstring r h p a Hh Hr Hparse Hroot.
  destruct (parse_parser_ok xmlstring r h p Hh Hr Hparse)
    as (_ & Hheap & Hrootok).
  assert (Ha : a < length (heap p)) by exact (Hrootok a Hroot).
  destruct (snapshot_is_Some (heap p) Hheap (length (heap p)) a Ha ltac:(lia))
    as [t Ht].
  exists t. split; [exact Ht|].
  intros out. unfold to_xml. rewrite (serialize_xml_tree _ _ a t Hroot Ht).
  now intros [= <-].
Qed.

Lemma parsed_document_is_a_tree_witness :
  exists p t,
    parse doc_round_trip None [] = Ok p
    /\ tree_of (heap p) 0 = Some t.
Proof.
  eexists.
  destruct (parsed_document_is_a_tree doc_round_trip None []
              ltac:(let x := eval vm_compute in
                      (match parse doc_round_trip None [] with
                       | Ok p => p
                       | Raise _ =>
                           mkXmlParser "" [] [] XmlRoot_default None [] [] []
                       end) in exact x) 0)
    as (t & Ht & _).
  - intros a o Ho. discriminate.
  - intros r0 a Hr. discriminate.
  - vm_compute; reflexivity.
  - reflexivity.
  - exists t. split; [vm_compute; reflexivity | exact Ht].
Defined.

(** ** Texts without a declaration *)

Lemma header_startnode v e s token :
  preserves (header_is v e s) (_process_startnode token).
Proof.
  intros p p' H E. apply _process_startnode_state in E as (t & _ & ->).
  cbv zeta. now destruct (last (parent_nodes p)).
Qed.

Lemma header_endnode v e s token :
  preserves (header_is v e s) (_process_endnode token).
Proof. intros p p' H E. now apply _process_endnode_state in E as ->. Qed.

Lemma header_text v e s token :
  preserves (header_is v e s) (bind get (fun p =>
    match current_node p with
    | Some cur =>
        if PyStr.truthy token && negb (PyStr.isspace token)
        then modify (fun p => with_heap
                       (alter (set_value (Some token)) cur (heap p)) p)
        else ret tt
    | None => ret tt
    end)).
Proof.
  intros p p' Hp. unfold bind, get.
  destruct (current_node p) as [cur|]; [|now apply preserves_ret].
  destruct (_ && _); [|now apply preserves_ret].
  now intros [= <-].
Qed.

Lemma header_process_token v e s token :
  PyStr.startswith token "<?xml" = false ->
  preserves (header_is v e s) (process_token token).
Proof.
  intros H. unfold process_token. rewrite H. cbv iota.
  apply preserves_bind.
  - repeat (apply preserves_if;
            try apply preserves_ret;
            try apply header_endnode;
            try apply header_startnode;
            try (apply preserves_modify; now intros p)).
    + apply preserves_bind; [apply header_startnode | apply header_endnode].
    + apply header_text.
  - apply preserves_modify. now intros p.
Qed.

Lemma header_process_tokens v e s l :
  Forall (fun t => PyStr.startswith t "<?xml" = false) l ->
  preserves (header_is v e s) (process_tokens l).
Proof.
  induction 1 as [|token l Ht Hl IH]; [apply preserves_ret|].
  cbn [process_tokens].
  apply preserves_bind; [now apply header_process_token | exact IH].
Qed.

(** X17.  When no token of the text begins an XML declaration, the parse
    leaves the version, the encoding and the standalone value of the
    document as they were: those of the document given, or those of a
    new document. *)
Theorem parse_without_declaration_keeps_header :
  forall xmlstring r h p,
    Forall (fun t => PyStr.startswith t "<?xml" = false)
           (Re.findall RegexCollector.XML_SPE xmlstring) ->
    parse xmlstring r h = Ok p ->
    let r0 := match r with Some r0 => r0 | None => XmlRoot_default end in
    version (xml_root p) = version r0
    /\ encoding (xml_root p) = encoding r0
    /\ standalone (xml_root p) = standalone r0.
Proof.
  intros xmlstring r h p Hno Hparse r0.
  destruct (parse_ok_steps xmlstring r h p Hparse) as (p0 & Hinit & Hrun).
  unfold XmlParser_init, XmlParser_of_tokens in Hinit.
  destruct (_assert_lex _ _); [|discriminate]. injection Hinit as <-.
  refine (header_process_tokens (version r0) (encoding r0) (standalone r0)
            _ Hno _ p _ Hrun).
  now repeat split.
Qed.

Lemma parse_without_declaration_keeps_header_witness :
  exists p, parse doc_round_trip None [] = Ok p
            /\ version (xml_root p) = "1.0".
Proof.
  eexists. split; [vm_compute; reflexivity|].
  refine (proj1 (parse_without_declaration_keeps_header
                   doc_round_trip None [] _ _ _)).
  - vm_compute. repeat constructor.
  - vm_compute; reflexivity.
Defined.

(** ** Values and children *)

(** X18.  The value of a node that has a child is not written: with at
    least one child, two values that are both true give the same text. *)
Theorem value_with_children_not_written :
  forall tag_ attrs v v' kid kids depth,
    PyStr.truthy v = true -> PyStr.truthy v' = true ->
    _to_xml (Node tag_ attrs (Some v) (kid :: kids)) depth
    = _to_xml (Node tag_ attrs (Some v') (kid :: kids)) depth.
Proof.
  intros tag_ attrs v v' kid kids depth Hv Hv'.
  cbn [_to_xml is_empty nodes_are_empty nonempty PyStr.truthy_opt negb].
  rewrite Hv, Hv'. reflexivity.
Qed.

Lemma value_with_children_not_written_witness :
  _to_xml (Node "a" [] (Some "x") [Node "b" [] (Some "y") []]) 0
  = _to_xml (Node "a" [] (Some "z") [Node "b" [] (Some "y") []]) 0.
Proof. apply value_with_children_not_written; reflexivity. Defined.

(** ** The empty path *)

(** X19.  With an empty list as path, the inserts do nothing, and the
    lookup gives nothing on a node without children but raises
    [AttributeError] on a node that has one, and so do the methods that
    look up first. *)
Theorem empty_path :
  forall h self o node v,
    h !! self = Some o ->
    insert_before h self (Path []) node = Ok (h, Path [])
    /\ insert_after h self (Path []) node = Ok (h, Path [])
    /\ (nodes o = [] ->
        get_first_node h self (Path []) = Ok (None, Path [])
        /\ NodeApi.get_value h self (Path []) = Ok (None, Path [])
        /\ NodeApi.set_value h self (Path []) v = Ok (h, Path []))
    /\ (nodes o <> [] ->
        get_first_node h self (Path []) = Raise AttributeError
        /\ NodeApi.get_value h self (Path []) = Raise AttributeError
        /\ NodeApi.set_value h self (Path []) v = Raise AttributeError).
Proof.
  intros h self o node v Ho.
  split; [reflexivity|]. split; [reflexivity|].
  unfold NodeApi.get_value, NodeApi.set_value, get_first_node.
  cbn [get_first_node_path]. rewrite Ho.
  split; intros Hn.
  - rewrite Hn. now repeat split.
  - destruct (nodes o); [congruence|]. now repeat split.
Qed.

Lemma empty_path_witness :
  get_first_node chain_store 0 (Path []) = Raise AttributeError
  /\ get_first_node chain_store 3 (Path []) = Ok (None, Path []).
Proof.
  split.
  - apply (empty_path chain_store 0 (mkXmlNode "r" [] None [1]) 0 None eq_refl).
    discriminate.
  - apply (empty_path chain_store 3 (mkXmlNode "c" [] (Some "x") []) 0 None
             eq_refl).
    reflexivity.
Defined.
